(** * Apigee proxy bot: request parser, template renderer and deployment

    A shallow embedding of
      - [common/parsers.py]             (class [RequestParser]),
      - [services/template_generator.py] (class [ApigeeTemplates]),
      - [services/apigee_service.py]     (class [ApigeeService]),
    together with the properties the specification states about them.

    Texts.  A Python [str] is a sequence of code points.  Here a text is a
    [list ascii]: a sequence of code points below 256 (Latin-1), on which
    [str.lower], the classes [\s], [\d] and [.] of the [re] module and the
    case-insensitive comparison of [re.IGNORECASE] are the functions
    written out below.  A text with a code point above 255 is outside the
    model: there [str.lower] can change the length of a text (U+0130) and
    leaves some upper-case letters as they are, and [re.IGNORECASE] takes
    U+017F for [s], U+212A for [k] and U+0130, U+0131 for [i].

    Files.  [create_proxy_bundle] is modelled by the files it writes when
    every [open] succeeds, as it does for the names [analyze_request]
    gives; a configuration made by hand, with a [/] in a policy name, makes
    [open] raise in the code, before the token is looked at. *)

From Stdlib Require Import String Ascii List Bool Arith Lia NArith.
Import ListNotations.

Local Open Scope string_scope.
Local Open Scope list_scope.

Set Implicit Arguments.

(* ------------------------------------------------------------------ *)
(** ** Texts and characters *)

Definition text := list ascii.

(** A text literal. *)
Definition str (s : string) : text := list_ascii_of_string s.

Definition code (c : ascii) : N := N_of_ascii c.

Definition in_range (lo hi : N) (c : ascii) : bool :=
  (lo <=? code c)%N && (code c <=? hi)%N.

(** [c.isupper()] on Latin-1: A-Z, and the letters U+00C0..U+00DE
    apart from the multiplication sign U+00D7. *)
Definition is_upper (c : ascii) : bool :=
  in_range 65 90 c || (in_range 192 222 c && negb (code c =? 215)%N).

(** [c.lower()] on Latin-1: an upper-case letter moves 32 places up. *)
Definition lower_char (c : ascii) : ascii :=
  if is_upper c then ascii_of_N (code c + 32) else c.

(** [s.lower()], which on Latin-1 works character by character. *)
Definition lower (s : text) : text := map lower_char s.

(** The class [\d] of a [str] pattern: decimal digits. *)
Definition is_digit (c : ascii) : bool := in_range 48 57 c.

(** The class [\s] of a [str] pattern, which is also [str.isspace]:
    TAB..CR, FS..US, space, NEL and the no-break space. *)
Definition is_space (c : ascii) : bool :=
  in_range 9 13 c || in_range 28 32 c || (code c =? 133)%N || (code c =? 160)%N.

(** [.] without [re.DOTALL]: anything but a line feed. *)
Definition is_dot (c : ascii) : bool := negb (code c =? 10)%N.

Definition is_lower_az (c : ascii) : bool := in_range 97 122 c.
Definition is_upper_AZ (c : ascii) : bool := in_range 65 90 c.

(** The null character. *)
Definition zero : ascii := ascii_of_N 0.

(** Membership of a character in a text, [c in "abc"]. *)
Definition mem (c : ascii) (cs : text) : bool := existsb (Ascii.eqb c) cs.

(** [s.startswith(p)] *)
Fixpoint starts_with (p s : text) : bool :=
  match p, s with
  | [], _ => true
  | _ :: _, [] => false
  | a :: p', b :: s' => Ascii.eqb a b && starts_with p' s'
  end.

(** [p in s] for two strings: [p] occurs in [s] as a contiguous run. *)
Fixpoint contains (p s : text) : bool :=
  starts_with p s ||
  match s with
  | [] => false
  | _ :: s' => contains p s'
  end.

(** [any(phrase in s for phrase in phrases)] *)
Definition any_in (phrases : list text) (s : text) : bool :=
  existsb (fun p => contains p s) phrases.

(** Equality of two strings, [a == b]. *)
Fixpoint text_eqb (a b : text) : bool :=
  match a, b with
  | [], [] => true
  | x :: a', y :: b' => Ascii.eqb x y && text_eqb a' b'
  | _, _ => false
  end.

(** [x in l] for a list of strings. *)
Definition in_list (x : text) (l : list text) : bool := existsb (text_eqb x) l.

(** [s.lstrip(chars)], [s.rstrip(chars)] and [s.strip(chars)]. *)
Fixpoint lstrip (chars s : text) : text :=
  match s with
  | [] => []
  | c :: s' => if mem c chars then lstrip chars s' else s
  end.

Definition rstrip (chars s : text) : text := rev (lstrip chars (rev s)).

Definition strip (chars s : text) : text := rstrip chars (lstrip chars s).

(** [s.strip()]: white space on both sides. *)
Fixpoint lstrip_space (s : text) : text :=
  match s with
  | [] => []
  | c :: s' => if is_space c then lstrip_space s' else s
  end.

Definition strip_space (s : text) : text :=
  rev (lstrip_space (rev (lstrip_space s))).

(** [s.replace(a, b)] for one-character [a] and [b]. *)
Definition replace_char (a b : ascii) (s : text) : text :=
  map (fun c => if Ascii.eqb c a then b else c) s.

(** [sep.join(parts)] *)
Fixpoint join (sep : text) (parts : list text) : text :=
  match parts with
  | [] => []
  | [p] => p
  | p :: rest => p ++ sep ++ join sep rest
  end.

(* ------------------------------------------------------------------ *)
(** ** Regular expressions of the [re] module

    The constructs the patterns of [parsers.py] use: literals and
    character sets, concatenation, alternation [a|b], greedy and lazy
    repetition of one character set ([c*], [c+], [c*?]) and the optional
    [r?].  Every pattern there has exactly one capturing group, on the
    spine of the pattern: it is kept as the expression before the group,
    the group's expression and the expression after it. *)

Inductive regex : Type :=
| Eps  : regex
| Cls  : (ascii -> bool) -> regex            (* one character of a set *)
| Seq  : regex -> regex -> regex
| Alt  : regex -> regex -> regex             (* a|b, the left one first *)
| Star : bool -> (ascii -> bool) -> regex.   (* c* when greedy, c*? when not *)

Record pattern : Type := Pattern {
  before : regex;   (* what precedes group 1 *)
  group1 : regex;   (* the body of group 1 *)
  after  : regex    (* what follows group 1 *)
}.

(** A literal character; under [re.IGNORECASE] two characters below 256
    are taken for one another when their lower-case forms are equal. *)
Definition chr (ic : bool) (c : ascii) : regex :=
  Cls (fun x => if ic then Ascii.eqb (lower_char x) (lower_char c)
                else Ascii.eqb x c).

Fixpoint lit_chars (ic : bool) (s : text) : regex :=
  match s with
  | [] => Eps
  | [c] => chr ic c
  | c :: s' => Seq (chr ic c) (lit_chars ic s')
  end.

(** A literal run of characters of the pattern. *)
Definition lit (ic : bool) (s : string) : regex := lit_chars ic (str s).

(** [c+], [c*], [c*?] and [r?]. *)
Definition plus (c : ascii -> bool) : regex := Seq (Cls c) (Star true c).
Definition star (c : ascii -> bool) : regex := Star true c.
Definition lazy_star (c : ascii -> bool) : regex := Star false c.
Definition opt (r : regex) : regex := Alt r Eps.

(** [.*?] *)
Definition any_lazy : regex := lazy_star is_dot.

Declare Scope regex_scope.
Delimit Scope regex_scope with re.
Bind Scope regex_scope with regex.
Notation "a >> b" := (Seq a b) (at level 61, right associativity) : regex_scope.
Notation "a <|> b" := (Alt a b) (at level 62, right associativity) : regex_scope.

(** The backtracking matcher, in continuation-passing style: [rmatch r s k]
    tries the ways [r] can match a prefix of [s] in the order of the
    [re] module (left alternative first, longest repetition first when
    greedy, shortest first when lazy) and hands the matched prefix and the
    rest to [k]; the first way on which [k] succeeds is the result. *)

Fixpoint star_greedy (A : Type) (c : ascii -> bool) (s : text)
    (k : text -> text -> option A) : option A :=
  match s with
  | x :: s' =>
      if c x then
        match star_greedy c s' (fun w r => k (x :: w) r) with
        | Some a => Some a
        | None => k [] s
        end
      else k [] s
  | [] => k [] []
  end.

Fixpoint star_lazy (A : Type) (c : ascii -> bool) (s : text)
    (k : text -> text -> option A) : option A :=
  match k [] s with
  | Some a => Some a
  | None =>
      match s with
      | x :: s' => if c x then star_lazy c s' (fun w r => k (x :: w) r) else None
      | [] => None
      end
  end.

Fixpoint rmatch (A : Type) (r : regex) (s : text)
    (k : text -> text -> option A) : option A :=
  match r with
  | Eps => k [] s
  | Cls c =>
      match s with
      | x :: s' => if c x then k [x] s' else None
      | [] => None
      end
  | Seq r1 r2 =>
      rmatch r1 s (fun w1 s1 => rmatch r2 s1 (fun w2 s2 => k (w1 ++ w2) s2))
  | Alt r1 r2 =>
      match rmatch r1 s k with
      | Some a => Some a
      | None => rmatch r2 s k
      end
  | Star greedy c => if greedy then star_greedy c s k else star_lazy c s k
  end.

(** A match of the whole pattern at the start of [s]: the text of group 1. *)
Definition match_here (p : pattern) (s : text) : option text :=
  rmatch (before p) s (fun _ s1 =>
  rmatch (group1 p) s1 (fun g s2 =>
  rmatch (after p) s2 (fun _ _ => Some g))).

(** [re.search(p, s)]: the match at the leftmost position that has one;
    [None] when there is none, else [m.group(1)]. *)
Fixpoint re_search (p : pattern) (s : text) : option text :=
  match match_here p s with
  | Some g => Some g
  | None =>
      match s with
      | [] => None
      | _ :: s' => re_search p s'
      end
  end.

(** The loop [for pattern in patterns: match = re.search(pattern, s);
    if match: ...; break]: group 1 of the first pattern that matches. *)
Fixpoint first_match (patterns : list pattern) (s : text) : option text :=
  match patterns with
  | [] => None
  | p :: rest =>
      match re_search p s with
      | Some g => Some g
      | None => first_match rest s
      end
  end.

(* ------------------------------------------------------------------ *)
(** ** [common/parsers.py]: class [RequestParser] *)

Module RequestParser.

(** The set [[a-zA-Z0-9\-_]]. *)
Definition name_char (c : ascii) : bool :=
  is_lower_az c || is_upper_AZ c || is_digit c || mem c (str "-_").

(** The set [[a-zA-Z0-9\-_/]]. *)
Definition path_char (c : ascii) : bool :=
  is_lower_az c || is_upper_AZ c || is_digit c || mem c (str "-_/").

(** The set [[a-zA-Z0-9\-_./:]]. *)
Definition url_char (c : ascii) : bool :=
  is_lower_az c || is_upper_AZ c || is_digit c || mem c (str "-_./:").

(** The set [[^\s]]. *)
Definition non_space (c : ascii) : bool := negb (is_space c).

(** The set [[^\s,;.\s]]. *)
Definition non_space_punct (c : ascii) : bool :=
  negb (is_space c || mem c (str ",;."))%bool.

(** The set [[^.]]. *)
Definition non_period (c : ascii) : bool := negb (Ascii.eqb c ".").

Section Patterns.
Local Open Scope regex_scope.

(** [([a-zA-Z0-9\-_]+)] *)
Definition name_group : regex := plus name_char.

(** The patterns of [name_patterns], compiled without flags. *)
Definition name_patterns : list pattern :=
  [ (* named\s+([a-zA-Z0-9\-_]+) *)
    Pattern (lit false "named" >> plus is_space) name_group Eps;
    (* called\s+([a-zA-Z0-9\-_]+) *)
    Pattern (lit false "called" >> plus is_space) name_group Eps;
    (* proxy\s+([a-zA-Z0-9\-_]+) *)
    Pattern (lit false "proxy" >> plus is_space) name_group Eps;
    (* create.*?(?:proxy|api).*?named\s+([a-zA-Z0-9\-_]+) *)
    Pattern (lit false "create" >> any_lazy >>
             (lit false "proxy" <|> lit false "api") >> any_lazy >>
             lit false "named" >> plus is_space)
            name_group Eps;
    (* create.*?([a-zA-Z0-9\-_]+).*?(?:proxy|api) *)
    Pattern (lit false "create" >> any_lazy) name_group
            (any_lazy >> (lit false "proxy" <|> lit false "api"));
    (* API proxy named\s+([a-zA-Z0-9\-_]+) *)
    Pattern (lit false "API proxy named" >> plus is_space) name_group Eps;
    (* Apigee API proxy named\s+([a-zA-Z0-9\-_]+) *)
    Pattern (lit false "Apigee API proxy named" >> plus is_space) name_group Eps ].

(** [https?://], under [re.IGNORECASE]. *)
Definition scheme : regex :=
  lit true "http" >> opt (lit true "s") >> lit true "://".

(** [(https?://[^\s]+)] *)
Definition url_group : regex := scheme >> plus non_space.

(** The patterns of [url_patterns], compiled with [re.IGNORECASE]. *)
Definition url_patterns : list pattern :=
  [ (* target endpoint should be:\s*(https?://[^\s]+) *)
    Pattern (lit true "target endpoint should be:" >> star is_space) url_group Eps;
    (* target.*?endpoint.*?(?:be|is|:)\s*(https?://[^\s]+) *)
    Pattern (lit true "target" >> any_lazy >> lit true "endpoint" >> any_lazy >>
             (lit true "be" <|> lit true "is" <|> lit true ":") >> star is_space)
            url_group Eps;
    (* pointing to\s+(https?://[^\s]+) *)
    Pattern (lit true "pointing to" >> plus is_space) url_group Eps;
    (* target.*?(https?://[^\s]+) *)
    Pattern (lit true "target" >> any_lazy) url_group Eps;
    (* backend.*?(https?://[^\s]+) *)
    Pattern (lit true "backend" >> any_lazy) url_group Eps;
    (* endpoint.*?(https?://[^\s,;.\s]+) *)
    Pattern (lit true "endpoint" >> any_lazy) (scheme >> plus non_space_punct) Eps;
    (* (https?://[a-zA-Z0-9\-_./:]+(?:/[a-zA-Z0-9\-_./:]* )?), written here
       with a blank after the last star that the pattern does not have *)
    Pattern Eps
            (scheme >> plus url_char >> opt (lit true "/" >> star url_char))
            Eps ].

(** [([a-zA-Z0-9\-_/]+)] *)
Definition path_group : regex := plus path_char.

(** The patterns of [base_path_patterns], compiled without flags. *)
Definition base_path_patterns : list pattern :=
  [ (* base path\s+([a-zA-Z0-9\-_/]+) *)
    Pattern (lit false "base path" >> plus is_space) path_group Eps;
    (* basepath\s+([a-zA-Z0-9\-_/]+) *)
    Pattern (lit false "basepath" >> plus is_space) path_group Eps;
    (* path\s+([a-zA-Z0-9\-_/]+) *)
    Pattern (lit false "path" >> plus is_space) path_group Eps;
    (* with base path\s+([a-zA-Z0-9\-_/]+) *)
    Pattern (lit false "with base path" >> plus is_space) path_group Eps ].

(** [(\d+)] *)
Definition rate_group : regex := plus is_digit.

(** The patterns of [rate_patterns], compiled without flags. *)
Definition rate_patterns : list pattern :=
  [ (* (\d+)\s*requests?\s*per\s*sec *)
    Pattern Eps rate_group
            (star is_space >> lit false "request" >> opt (lit false "s") >>
             star is_space >> lit false "per" >> star is_space >> lit false "sec");
    (* (\d+)\s*per\s*sec *)
    Pattern Eps rate_group
            (star is_space >> lit false "per" >> star is_space >> lit false "sec");
    (* (\d+)\s*per\s*second *)
    Pattern Eps rate_group
            (star is_space >> lit false "per" >> star is_space >> lit false "second");
    (* (\d+)ps *)
    Pattern Eps rate_group (lit false "ps");
    (* spike arrest.*?(\d+) *)
    Pattern (lit false "spike arrest" >> any_lazy) rate_group Eps;
    (* (\d+)\s*req.*?sec *)
    Pattern Eps rate_group
            (star is_space >> lit false "req" >> any_lazy >> lit false "sec") ].

(** [([^.]+)] *)
Definition intent_group : regex := plus non_period.

(** The patterns of [transformation_patterns], compiled without flags. *)
Definition transformation_patterns : list pattern :=
  [ (* combine\s+([^.]+) *)
    Pattern (lit false "combine" >> plus is_space) intent_group Eps;
    (* transform\s+([^.]+) *)
    Pattern (lit false "transform" >> plus is_space) intent_group Eps;
    (* modify\s+([^.]+) *)
    Pattern (lit false "modify" >> plus is_space) intent_group Eps;
    (* add\s+([^.]+) *)
    Pattern (lit false "add" >> plus is_space) intent_group Eps;
    (* javascript.*?(?:to|that)\s+([^.]+) *)
    Pattern (lit false "javascript" >> any_lazy >>
             (lit false "to" <|> lit false "that") >> plus is_space)
            intent_group Eps ].

End Patterns.

(** The dictionary [extract_proxy_details] returns. *)
Record proxy_details : Type := ProxyDetails {
  name : text;
  target_url : text;
  base_path : text
}.

Definition default_name : text := str "generated-proxy".
Definition default_target_url : text := str "https://mocktarget.apigee.net/json".

(** The loop over [url_patterns]: a match is used, and ends the loop, only
    when [len(url) > 10 and '.' in url] after [rstrip('.,;')]. *)
Fixpoint find_target_url (patterns : list pattern) (message : text) : option text :=
  match patterns with
  | [] => None
  | p :: rest =>
      match re_search p message with
      | Some g =>
          let url := rstrip (str ".,;") g in
          if (10 <? length url)%nat && mem "." url then Some url
          else find_target_url rest message
      | None => find_target_url rest message
      end
  end.

Definition extract_proxy_details (message : text) : proxy_details :=
  let message_lower := lower message in
  let proxy_name :=
    match first_match name_patterns message_lower with
    | Some g => replace_char " " "-" g
    | None => default_name
    end in
  let target_url :=
    match find_target_url url_patterns message with
    | Some url => url
    | None => default_target_url
    end in
  let base_path :=
    match first_match base_path_patterns message_lower with
    | Some g => "/"%char :: strip (str "/") g
    | None => "/"%char :: proxy_name
    end in
  ProxyDetails proxy_name target_url base_path.

Definition security_phrases : list text :=
  map str ["api key"; "apikey"; "authentication"; "verify api key"].
Definition quota_phrases : list text :=
  map str ["quota"; "rate limit"; "requests per hour"; "requests per day"].
Definition spike_phrases : list text :=
  map str ["spike arrest"; "spike"; "burst"; "requests per sec"; "per second"].
Definition javascript_phrases : list text :=
  map str ["javascript"; "transform"; "modify"; "combine"; "js policy"].
Definition assign_phrases : list text :=
  map str ["assign message"; "set variable"; "add header"; "set header"].

(** [if cond: policies.append(kind)] *)
Definition append_if (cond : bool) (kind : string) (policies : list text) : list text :=
  if cond then policies ++ [str kind] else policies.

Definition detect_policies (message : text) : list text :=
  let message_lower := lower message in
  let policies := [] in
  let policies := append_if (any_in security_phrases message_lower) "VerifyAPIKey" policies in
  let policies := append_if (contains (str "cors") message_lower) "CORS" policies in
  let policies := append_if (any_in quota_phrases message_lower) "Quota" policies in
  let policies := append_if (any_in spike_phrases message_lower) "SpikeArrest" policies in
  let policies := append_if (any_in javascript_phrases message_lower) "JavaScript" policies in
  let policies := append_if (any_in assign_phrases message_lower) "AssignMessage" policies in
  policies.

Definition extract_spike_arrest_rate (message : text) : text :=
  let message_lower := lower message in
  match first_match rate_patterns message_lower with
  | Some rate => rate ++ str "ps"
  | None => str "10ps"
  end.

Definition extract_transformation_intent (message : text) : text :=
  match first_match transformation_patterns (lower message) with
  | Some g => strip_space g
  | None => str "custom data transformation"
  end.

End RequestParser.

(* ------------------------------------------------------------------ *)
(** ** [services/template_generator.py]: class [ApigeeTemplates] *)

Module ApigeeTemplates.

(** The XML templates are written with an apostrophe wherever the source
    has a double quote (the templates themselves have no apostrophe);
    [xml] puts the double quotes back. *)
Definition dquote : ascii := ascii_of_N 34.
Definition squote : ascii := ascii_of_N 39.
Definition xml (s : string) : text := replace_char squote dquote (str s).

(** Line feed. *)
Definition nl : text := [ascii_of_N 10].

Definition generate_proxy_xml (name : text) (policies : list text) : text :=
  let policy_refs :=
    join nl (map (fun policy => xml "  <Policy>" ++ policy ++ xml "</Policy>") policies) in
  xml "<?xml version='1.0' encoding='UTF-8' standalone='yes'?>
<APIProxy name='" ++ name ++ xml "'>
  <Description>Auto-generated proxy: " ++ name ++ xml "</Description>
  <DisplayName>" ++ name ++ xml "</DisplayName>
" ++ policy_refs ++ xml "
  <ProxyEndpoints>
    <ProxyEndpoint>default</ProxyEndpoint>
  </ProxyEndpoints>
  <Resources/>
  <TargetEndpoints>
    <TargetEndpoint>default</TargetEndpoint>
  </TargetEndpoints>
</APIProxy>".

(** The policies that run in the request pre-flow, and in the response
    post-flow: the two lists of the [if]/[elif] of the placement loop. *)
Definition preflow_request_kinds : list text :=
  map str ["VerifyAPIKey"; "CORS"; "AssignMessage"; "SpikeArrest"; "Quota"].
Definition postflow_response_kinds : list text :=
  map str ["JavaScript"].

(** One [<Step>] element. *)
Definition step (policy : text) : text :=
  xml "      <Step>
        <Name>" ++ policy ++ xml "</Name>
      </Step>".

(** The three lists the placement loop fills. *)
Record flow_steps : Type := FlowSteps {
  preflow_request_steps : list text;
  preflow_response_steps : list text;
  postflow_response_steps : list text
}.

(** The body of [for policy in policies]. *)
Definition place (steps : flow_steps) (policy : text) : flow_steps :=
  if in_list policy preflow_request_kinds then
    FlowSteps (preflow_request_steps steps ++ [step policy])
              (preflow_response_steps steps)
              (postflow_response_steps steps)
  else if in_list policy postflow_response_kinds then
    FlowSteps (preflow_request_steps steps)
              (preflow_response_steps steps)
              (postflow_response_steps steps ++ [step policy])
  else steps.

Definition place_all (policies : list text) : flow_steps :=
  fold_left place policies (FlowSteps [] [] []).

(** ["\n".join(steps) if steps else ""] *)
Definition format_steps (steps : list text) : text :=
  match steps with
  | [] => []
  | _ => join nl steps
  end.

Definition fault_rules_block : text :=
  xml "  <FaultRules>
    <FaultRule name='InvalidAPIKey'>
      <Step>
        <Name>AM-InvalidAPIKey</Name>
      </Step>
      <Condition>(fault.name Matches 'InvalidApiKeyForGivenResource') or (fault.name Matches 'InvalidApiKey')</Condition>
    </FaultRule>
  </FaultRules>
  <DefaultFaultRule name='defaultRule'>
    <Step>
      <Name>AM-GenericError</Name>
    </Step>
  </DefaultFaultRule>".

(** [fault_rules_xml]: the block, only if VerifyAPIKey is present. *)
Definition fault_rules_xml (policies : list text) : text :=
  if in_list (str "VerifyAPIKey") policies then fault_rules_block else [].

Definition flows_xml : text :=
  xml "  <Flows>
    <Flow name='MainFlow'>
      <Description>Main API flow</Description>
      <Request/>
      <Response/>
      <Condition>proxy.pathsuffix MatchesPath '/**'</Condition>
    </Flow>
  </Flows>".

(** The final f-string of [generate_proxy_endpoint_xml], with its slots. *)
Definition proxy_endpoint_template
    (name fault_rules preflow_req preflow_resp postflow_resp flows base_path : text)
    : text :=
  xml "<?xml version='1.0' encoding='UTF-8' standalone='yes'?>
<ProxyEndpoint name='default'>
  <Description>" ++ name ++ xml " proxy endpoint</Description>
" ++ fault_rules ++ xml "
  <PreFlow name='PreFlow'>
    <Request>
" ++ preflow_req ++ xml "
    </Request>
    <Response>
" ++ preflow_resp ++ xml "
    </Response>
  </PreFlow>
  <PostFlow name='PostFlow'>
    <Request/>
    <Response>
" ++ postflow_resp ++ xml "
    </Response>
  </PostFlow>
" ++ flows ++ xml "
  <HTTPProxyConnection>
    <BasePath>" ++ base_path ++ xml "</BasePath>
    <Properties/>
  </HTTPProxyConnection>
  <RouteRule name='default'>
    <TargetEndpoint>default</TargetEndpoint>
  </RouteRule>
</ProxyEndpoint>".

(** [message] is accepted and not used. *)
Definition generate_proxy_endpoint_xml
    (name base_path : text) (policies : list text) (message : text) : text :=
  let steps := place_all policies in
  let preflow_req_xml := format_steps (preflow_request_steps steps) in
  let preflow_resp_xml := format_steps (preflow_response_steps steps) in
  let postflow_resp_xml := format_steps (postflow_response_steps steps) in
  proxy_endpoint_template name (fault_rules_xml policies)
    preflow_req_xml preflow_resp_xml postflow_resp_xml flows_xml base_path.

Definition generate_target_endpoint_xml (target_url : text) : text :=
  let clean_url := rstrip (str ".,; ") (strip_space target_url) in
  xml "<?xml version='1.0' encoding='UTF-8' standalone='yes'?>
<TargetEndpoint name='default'>
  <Description>Default target endpoint</Description>
  <PreFlow name='PreFlow'>
    <Request/>
    <Response/>
  </PreFlow>
  <PostFlow name='PostFlow'>
    <Request/>
    <Response/>
  </PostFlow>
  <Flows/>
  <HTTPTargetConnection>
    <URL>" ++ clean_url ++ xml "</URL>
    <Properties/>
  </HTTPTargetConnection>
</TargetEndpoint>".

(** The dictionary [templates], in the order of the source. *)
Definition templates : list (text * text) :=
  [ (str "VerifyAPIKey",
     xml "<?xml version='1.0' encoding='UTF-8' standalone='yes'?>
<VerifyAPIKey async='false' continueOnError='false' enabled='true' name='VerifyAPIKey'>
  <DisplayName>Verify API Key</DisplayName>
  <APIKey ref='request.queryparam.apikey'/>
</VerifyAPIKey>");
    (str "JavaScript",
     xml "<?xml version='1.0' encoding='UTF-8' standalone='yes'?>
<Javascript async='false' continueOnError='false' enabled='true' name='JavaScript'>
  <DisplayName>JavaScript Transformation</DisplayName>
  <ResourceURL>jsc://transformation.js</ResourceURL>
</Javascript>");
    (str "AssignMessage",
     xml "<?xml version='1.0' encoding='UTF-8' standalone='yes'?>
<AssignMessage continueOnError='false' enabled='true' name='AssignMessage'>
  <DisplayName>Assign Message</DisplayName>
  <Properties/>
  <Set>
    <Headers>
      <Header name='X-Processed-By'>Apigee</Header>
    </Headers>
  </Set>
  <AssignVariable>
    <Name>request.timestamp</Name>
    <Value>{system.timestamp}</Value>
  </AssignVariable>
  <IgnoreUnresolvedVariables>true</IgnoreUnresolvedVariables>
  <AssignTo createNew='false' transport='http' type='request'/>
</AssignMessage>");
    (str "CORS",
     xml "<?xml version='1.0' encoding='UTF-8' standalone='yes'?>
<CORS async='false' continueOnError='false' enabled='true' name='CORS'>
  <DisplayName>CORS Policy</DisplayName>
  <AllowOrigins>*</AllowOrigins>
  <AllowMethods>GET,POST,PUT,DELETE,OPTIONS</AllowMethods>
  <AllowHeaders>Content-Type,Authorization,X-Requested-With</AllowHeaders>
  <MaxAge>3628800</MaxAge>
  <AllowCredentials>false</AllowCredentials>
  <GeneratePreflightResponse>true</GeneratePreflightResponse>
</CORS>");
    (str "Quota",
     xml "<?xml version='1.0' encoding='UTF-8' standalone='yes'?>
<Quota async='false' continueOnError='false' enabled='true' name='Quota'>
  <DisplayName>Quota Policy</DisplayName>
  <Allow count='1000'/>
  <Interval>1</Interval>
  <TimeUnit>hour</TimeUnit>
  <Identifier ref='client_id'/>
  <Distributed>true</Distributed>
  <Synchronous>true</Synchronous>
</Quota>") ].

(** [d.get(key, default)] *)
Fixpoint dict_get (d : list (text * text)) (key default : text) : text :=
  match d with
  | [] => default
  | (k, v) :: rest => if text_eqb k key then v else dict_get rest key default
  end.

(** The SpikeArrest descriptor around its rate. *)
Definition spike_arrest_xml (rate : text) : text :=
  xml "<?xml version='1.0' encoding='UTF-8' standalone='yes'?>
<SpikeArrest async='false' continueOnError='false' enabled='true' name='SpikeArrest'>
  <DisplayName>Spike Arrest</DisplayName>
  <Rate>" ++ rate ++ xml "</Rate>
  <UseEffectiveCount>true</UseEffectiveCount>
</SpikeArrest>".

(** The descriptor of a policy that has no template. *)
Definition generic_policy_xml (policy_name : text) : text :=
  xml "<?xml version='1.0' encoding='UTF-8' standalone='yes'?>
<" ++ policy_name ++ xml " name='" ++ policy_name ++ xml "'>
  <DisplayName>" ++ policy_name ++ xml "</DisplayName>
</" ++ policy_name ++ xml ">".

Definition generate_policy_xml (policy_name message : text) : text :=
  if text_eqb policy_name (str "SpikeArrest") then
    let rate := RequestParser.extract_spike_arrest_rate message in
    spike_arrest_xml rate
  else
    dict_get templates policy_name (generic_policy_xml policy_name).

Definition combine_words : list text :=
  map str ["combine"; "firstname"; "lastname"; "fullname"].

Definition generate_javascript_code (transformation_intent : text) : text :=
  let intent_lower := lower transformation_intent in
  if any_in combine_words intent_lower then
    str "// Combine firstName and lastName into fullName
    try {
        var responseContent = context.getVariable('response.content');
        if (!responseContent) return;

        var data = JSON.parse(responseContent);

        if (data.firstName && data.lastName) {
            data.fullName = data.firstName + ' ' + data.lastName;
        }

        context.setVariable('response.content', JSON.stringify(data));

    } catch (e) {
        context.setVariable('transformation.error', e.message);
    }"
  else
    str "// Custom transformation: " ++ transformation_intent ++ str "
    try {
        var responseContent = context.getVariable('response.content');
        if (!responseContent) return;

        var data = JSON.parse(responseContent);

        // Implement custom logic for: " ++ transformation_intent ++ str "
        data.transformed = true;

        context.setVariable('response.content', JSON.stringify(data));

    } catch (e) {
        context.setVariable('transformation.error', e.message);
    }".

End ApigeeTemplates.

(* ------------------------------------------------------------------ *)
(** ** [services/apigee_service.py]: class [ApigeeService] *)

Module ApigeeService.

Import RequestParser.

(** [custom_logic["javascript"]] *)
Record javascript_logic : Type := JavascriptLogic {
  required : bool;
  description : text;
  js_code : text
}.

(** The configuration [analyze_request] returns and [create_proxy_bundle]
    and [deploy_to_apigee] read.  [custom_logic] is [None] for the empty
    dictionary; [original_message] is optional for the bundle. *)
Record config : Type := Config {
  proxy_details_of : proxy_details;
  policies : list text;
  transformation_intent : text;
  original_message : option text;
  custom_logic : option javascript_logic
}.

(** The fields of [self] set by [__init__]. *)
Record service : Type := Service {
  base_url : text;
  org : text;
  environment : text
}.

Definition analyze_request (message : text) : config :=
  let proxy_details := extract_proxy_details message in
  let policies := detect_policies message in
  let transformation_intent := extract_transformation_intent message in
  Config proxy_details policies transformation_intent (Some message)
    (if in_list (str "JavaScript") policies then
       Some (JavascriptLogic
               (in_list (str "JavaScript") policies)
               transformation_intent
               (ApigeeTemplates.generate_javascript_code transformation_intent))
     else None).

(** [os.path.join] of POSIX: a component that starts with [/] restarts the
    path, otherwise it is added after one [/]. *)
Definition path_join2 (a b : text) : text :=
  if starts_with (str "/") b then b
  else match rev a with
       | [] => b
       | c :: _ => if Ascii.eqb c "/" then a ++ b else a ++ str "/" ++ b
       end.

Definition path_join (a : text) (parts : list text) : text :=
  fold_left path_join2 parts a.

(** One [open(path, 'w')] followed by [f.write(content)]. *)
Record file_write : Type := FileWrite {
  path : text;
  content : text
}.

(** The path of the descriptor of one policy. *)
Definition policy_path (apiproxy_dir policy : text) : text :=
  path_join apiproxy_dir [str "policies"; policy ++ str ".xml"].

(** [create_proxy_bundle]: the files it writes beneath the temporary
    directory, in the order it writes them, when every [open] succeeds;
    the archive it returns holds the files found beneath [apiproxy/]
    afterwards.  ([open] raises for a path through a directory that does
    not exist, which a policy or proxy name with a [/] can give; the names
    of [analyze_request] have none.) *)
Definition create_proxy_bundle (temp_dir : text) (cfg : config) : list file_write :=
  let proxy_details := proxy_details_of cfg in
  let policies := policies cfg in
  let original_message :=
    match original_message cfg with Some m => m | None => [] end in
  let apiproxy_dir := path_join temp_dir [str "apiproxy"] in
  let name := name proxy_details in
  [ FileWrite (path_join apiproxy_dir [name ++ str ".xml"])
      (ApigeeTemplates.generate_proxy_xml name policies);
    FileWrite (path_join apiproxy_dir [str "proxies"; str "default.xml"])
      (ApigeeTemplates.generate_proxy_endpoint_xml
         name (base_path proxy_details) policies original_message);
    FileWrite (path_join apiproxy_dir [str "targets"; str "default.xml"])
      (ApigeeTemplates.generate_target_endpoint_xml (target_url proxy_details)) ]
  ++ map (fun policy =>
            FileWrite (policy_path apiproxy_dir policy)
              (ApigeeTemplates.generate_policy_xml policy original_message))
         policies
  ++ match custom_logic cfg with
     | Some js =>
         if required js then
           [ FileWrite
               (path_join apiproxy_dir [str "resources/jsc"; str "transformation.js"])
               (js_code js) ]
         else []
     | None => []
     end.

(** [os.environ]: the variables that are set; the first binding of a
    name is its value. *)
Definition environ := list (text * text).

(** [os.getenv(key)] *)
Fixpoint getenv (key : text) (env : environ) : option text :=
  match env with
  | [] => None
  | (k, v) :: rest => if text_eqb k key then Some v else getenv key rest
  end.

(** The environment with [key] bound to [value]. *)
Fixpoint setenv (key value : text) (env : environ) : environ :=
  match env with
  | [] => [(key, value)]
  | (k, v) :: rest =>
      if text_eqb k key then (key, value) :: rest
      else (k, v) :: setenv key value rest
  end.

(** [os.environ[key] = value]: [ValueError], and no change, when the value
    has a null character. *)
Definition putenv (key value : text) (env : environ) : option environ :=
  if mem zero value then None else Some (setenv key value env).

Definition APIGEE_TOKEN : text := str "APIGEE_TOKEN".

(** The truth value of an optional string: [None] and [""] are false. *)
Definition truthy (o : option text) : bool :=
  match o with
  | Some (_ :: _) => true
  | _ => false
  end.

(** What [requests.post] does: it answers with a status and a body, which
    is JSON or is not, or it raises. *)
Inductive http_outcome : Type :=
| Response (status_code : nat) (body : text) (body_is_json : bool)
| TransportError.

(** The request of [requests.post]. *)
Record http_request : Type := HttpRequest {
  request_url : text;
  authorization : text;
  file_name : text;
  bundle : list file_write
}.

(** Why a deployment failed: the exception the [except] clause caught. *)
Inductive failure : Type :=
| NoAccessToken                                  (* no token in the environment *)
| ApiError (status_code : nat) (body : text)     (* status 400 or above *)
| RequestFailed                                  (* [requests.post] raised *)
| BadResponseBody                                (* [response.json()] raised *)
| EnvironmentRejected.                           (* [os.environ[...] = ...] raised *)

(** The dictionary [deploy_to_apigee] returns (its message apart). *)
Inductive deploy_result : Type :=
| Deployed (proxy_name organization test_url : text)
| NotDeployed (reason : failure).

Definition success (r : deploy_result) : bool :=
  match r with
  | Deployed _ _ _ => true
  | NotDeployed _ => false
  end.

(** The body of the inner [try], which reads the environment and does not
    write it.  The bundle is built first, as in the code; building it is
    taken to succeed (see [create_proxy_bundle]). *)
Definition upload (self : service) (post : http_request -> http_outcome)
    (temp_dir : text) (cfg : config) (org : text) (env : environ)
    : deploy_result :=
  let bundle_content := create_proxy_bundle temp_dir cfg in
  let name := name (proxy_details_of cfg) in
  let url := base_url self ++ str "/organizations/" ++ org ++ str "/apis" in
  let token_header := getenv APIGEE_TOKEN env in
  if negb (truthy token_header) then NotDeployed NoAccessToken
  else
    let bearer := match token_header with Some t => t | None => [] end in
    match post (HttpRequest (url ++ str "?action=import&name=" ++ name)
                  (str "Bearer " ++ bearer) (name ++ str ".zip") bundle_content) with
    | TransportError => NotDeployed RequestFailed
    | Response status_code body body_is_json =>
        if (400 <=? status_code)%nat then NotDeployed (ApiError status_code body)
        else
          (* result = response.json() if response.content else {} *)
          if match body with _ :: _ => negb body_is_json | [] => false end
          then NotDeployed BadResponseBody
          else
            Deployed name org
              (str "https://" ++ org ++ str "-" ++ environment self ++
               str ".apigee.net" ++ base_path (proxy_details_of cfg))
    end.

(** [deploy_to_apigee]: the environment after the call, and the result. *)
Definition deploy_to_apigee (self : service) (post : http_request -> http_outcome)
    (temp_dir : text) (env : environ)
    (cfg : config) (organization token : option text)
    : environ * deploy_result :=
  let org := if truthy organization
             then match organization with Some o => o | None => org self end
             else org self in
  let original_token := getenv APIGEE_TOKEN env in
  (* if token: os.environ['APIGEE_TOKEN'] = token *)
  match (if truthy token
         then match token with Some t => putenv APIGEE_TOKEN t env | None => Some env end
         else Some env) with
  | None => (env, NotDeployed EnvironmentRejected)
  | Some env1 =>
      let result := upload self post temp_dir cfg org env1 in
      (* finally: if token and original_token: restore *)
      if truthy token && truthy original_token then
        match original_token with
        | Some t =>
            match putenv APIGEE_TOKEN t env1 with
            | Some env2 => (env2, result)
            | None => (env1, NotDeployed EnvironmentRejected)
            end
        | None => (env1, result)
        end
      else (env1, result)
  end.

End ApigeeService.

(* ------------------------------------------------------------------ *)
(** ** [common/tools.py]: class [PolicyTools] *)

Module PolicyTools.

Definition security_words : list text :=
  map str ["security"; "api key"; "apikey"; "auth"; "authenticate"].
Definition cors_words : list text :=
  map str ["cors"; "cross"; "browser"; "origin"].
Definition quota_words : list text :=
  map str ["quota"; "rate limit"; "limit requests"].
Definition spike_words : list text :=
  map str ["spike arrest"; "spike"; "burst"].
Definition javascript_words : list text :=
  map str ["javascript"; "js"; "script"; "transform"; "modify"; "combine"].
Definition assign_words : list text :=
  map str ["assign message"; "set variable"; "add header"].

(** The list [suggested] that [suggest_policies] builds.  The function
    returns [list(set(suggested))]: the elements of this list, each once,
    in an order that Python does not fix. *)
Definition suggested (requirements : text) : list text :=
  let req := lower requirements in
  let suggested := [] in
  let suggested :=
    RequestParser.append_if (any_in security_words req) "VerifyAPIKey" suggested in
  let suggested :=
    RequestParser.append_if (any_in cors_words req) "CORS" suggested in
  let suggested :=
    RequestParser.append_if (any_in quota_words req) "Quota" suggested in
  let suggested :=
    RequestParser.append_if (any_in spike_words req) "SpikeArrest" suggested in
  let suggested :=
    RequestParser.append_if (any_in javascript_words req) "JavaScript" suggested in
  let suggested :=
    RequestParser.append_if (any_in assign_words req) "AssignMessage" suggested in
  suggested.

End PolicyTools.

(* ------------------------------------------------------------------ *)
(** ** The language of a regular expression *)

(** The words an expression can match, whatever the order of the tries. *)
Fixpoint lang (r : regex) (w : text) : Prop :=
  match r with
  | Eps => w = []
  | Cls c => exists x, w = [x] /\ c x = true
  | Seq r1 r2 => exists w1 w2, w = w1 ++ w2 /\ lang r1 w1 /\ lang r2 w2
  | Alt r1 r2 => lang r1 w \/ lang r2 w
  | Star _ c => Forall (fun x => c x = true) w
  end.

(** A match of a pattern inside a text: what precedes the match, the parts
    matched before, by and after group 1, and what follows. *)
Definition matches_in (p : pattern) (s g : text) : Prop :=
  exists pre w1 w3 post,
    s = pre ++ w1 ++ g ++ w3 ++ post /\
    lang (before p) w1 /\ lang (group1 p) g /\ lang (after p) w3.

(** Every character set of an expression is within [P]. *)
Fixpoint sets_within (P : ascii -> Prop) (r : regex) : Prop :=
  match r with
  | Eps => True
  | Cls c => forall x, c x = true -> P x
  | Seq r1 r2 => sets_within P r1 /\ sets_within P r2
  | Alt r1 r2 => sets_within P r1 /\ sets_within P r2
  | Star _ c => forall x, c x = true -> P x
  end.

(** [q] matches only where [p] matches too. *)
Definition covered_by (q p : pattern) : Prop :=
  forall s g, matches_in q s g -> exists g', matches_in p s g'.

(* ------------------------------------------------------------------ *)
(** ** The notions the specification uses *)

(** The enumeration of policy kinds, in the priority order of detection:
    security, cross-origin, quota, spike-arrest, transformation,
    message-assignment. *)
Definition policy_kinds : list text :=
  map str ["VerifyAPIKey"; "CORS"; "Quota"; "SpikeArrest"; "JavaScript"; "AssignMessage"].

(** [subseq l ref]: [l] is [ref] with some elements left out, the others
    in the order of [ref]. *)
Fixpoint subseq (l ref : list text) : bool :=
  match l, ref with
  | [], _ => true
  | _ :: _, [] => false
  | x :: l', y :: ref' => if text_eqb x y then subseq l' ref' else subseq l ref'
  end.

(** Every phrase that triggers some policy kind. *)
Definition recognized_phrases : list text :=
  RequestParser.security_phrases ++ [str "cors"] ++
  RequestParser.quota_phrases ++ RequestParser.spike_phrases ++
  RequestParser.javascript_phrases ++ RequestParser.assign_phrases.

(** [s.endswith(c)] for one character. *)
Definition ends_with_char (c : ascii) (s : text) : bool :=
  match rev s with
  | x :: _ => Ascii.eqb x c
  | [] => false
  end.

(** A base path with exactly one leading [/] and no trailing [/]. *)
Definition well_formed_base_path (bp : text) : bool :=
  starts_with (str "/") bp && negb (starts_with (str "//") bp) &&
  negb (ends_with_char "/" bp).






(** The first rate pattern, [(\d+)\s*requests?\s*per\s*sec]. *)
Definition requests_per_sec : pattern := hd (Pattern Eps Eps Eps) RequestParser.rate_patterns.

(** A path that [os.path.join] extends after one more [/]: not empty
    and not ending with [/]. *)
Definition open_path (d : text) : bool :=
  match d with [] => false | _ :: _ => negb (ends_with_char "/" d) end.

(** A component that [os.path.join] adds to an open path leaving it open:
    not empty, not starting and not ending with [/]. *)
Definition plain_component (x : text) : bool :=
  negb (starts_with (str "/") x) && open_path x.

(** The two steps that the fault rules of the proxy endpoint refer to. *)
Definition fault_step_names : list text :=
  map str ["AM-InvalidAPIKey"; "AM-GenericError"].

(** The request of the booking scenario. *)
Definition booking_request : text :=
  str "Create an Apigee API proxy named booking-api with base path /booking pointing to https://backend.example.com/api. Add a VerifyAPIKey policy to all requests.".

(** Looking for the text [c0 :: n] while reading a text from left to
    right, for a [c0] that is not in [n].  The state is what is left of
    [c0 :: n] to read: all of it when nothing is matched, nothing when the
    text was found. *)
Definition scan_char (c0 : ascii) (n : text) (q : text) (c : ascii) : text :=
  match q with
  | [] => []
  | x :: r =>
      if Ascii.eqb c c0 then n
      else if Ascii.eqb c x then r
      else c0 :: n
  end.

Definition scan (c0 : ascii) (n : text) (q s : text) : text :=
  fold_left (scan_char c0 n) s q.

(** A text that takes the search from the start back to the start. *)
Definition inert (c0 : ascii) (n : text) (s : text) : Prop :=
  scan c0 n (c0 :: n) s = c0 :: n.

(** The opening tag of the fault rules, after its [<]. *)
Definition fault_rules_tag : text := str "FaultRules>".

(** The set [[a-z0-9\-_]]: what a lower-cased text has of
    [[a-zA-Z0-9\-_]]. *)
Definition ident_char (c : ascii) : bool :=
  is_lower_az c || is_digit c || mem c (str "-_").

(** [s] begins or ends with a white-space character. *)
Definition space_at_end (s : text) : bool :=
  match s with
  | [] => false
  | c :: _ => is_space c
  end ||
  match rev s with
  | [] => false
  | c :: _ => is_space c
  end.

(** [s] ends with one of the characters of [chars]. *)
Definition ends_with_any (chars s : text) : bool :=
  match rev s with
  | x :: _ => mem x chars
  | [] => false
  end.

(** [u] starts with [http://] or [https://], in any letter case. *)
Definition has_http_scheme (u : text) : bool :=
  starts_with (str "http://") (lower u) || starts_with (str "https://") (lower u).


(** [s] ends with a character of [\d]. *)
Definition ends_with_digit (s : text) : bool :=
  match rev s with
  | x :: _ => is_digit x
  | [] => false
  end.

(* ------------------------------------------------------------------ *)
(** ** Facts about texts *)

Unset Implicit Arguments.

Section TextFacts.

Lemma text_eqb_eq (a b : text) : text_eqb a b = true <-> a = b.
Proof.
  revert b; induction a as [|x a IH]; intros [|y b]; simpl; split;
    try congruence; try reflexivity.
  - intros H. apply andb_true_iff in H as [Hx Hab].
    apply Ascii.eqb_eq in Hx. apply IH in Hab. congruence.
  - intros H. injection H as -> ->. rewrite Ascii.eqb_refl. simpl.
    now apply IH.
Qed.

Lemma text_eqb_refl (a : text) : text_eqb a a = true.
Proof. now apply text_eqb_eq. Qed.

Lemma in_list_In (x : text) (l : list text) : in_list x l = true <-> In x l.
Proof.
  unfold in_list. rewrite existsb_exists. split.
  - intros (y & Hy & E). apply text_eqb_eq in E. now subst.
  - intros H. exists x. split; [assumption | apply text_eqb_refl].
Qed.

Lemma in_list_false (x : text) (l : list text) : in_list x l = false <-> ~ In x l.
Proof.
  rewrite <- in_list_In. destruct (in_list x l); split; congruence.
Qed.

Lemma mem_In (c : ascii) (cs : text) : mem c cs = true <-> In c cs.
Proof.
  unfold mem. rewrite existsb_exists. split.
  - intros (y & Hy & E). apply Ascii.eqb_eq in E. now subst.
  - intros H. exists c. split; [assumption | apply Ascii.eqb_refl].
Qed.

Lemma starts_with_app (p s : text) : starts_with p (p ++ s) = true.
Proof.
  induction p as [|a p IH]; simpl; [reflexivity|].
  now rewrite Ascii.eqb_refl.
Qed.

Lemma starts_with_inv (p s : text) :
  starts_with p s = true -> exists b, s = p ++ b.
Proof.
  revert s; induction p as [|a p IH]; intros s H.
  - now exists s.
  - destruct s as [|b s]; simpl in H; [discriminate|].
    apply andb_true_iff in H as [Hab H]. apply Ascii.eqb_eq in Hab; subst b.
    destruct (IH _ H) as [r ->]. now exists r.
Qed.

Lemma contains_starts (p s : text) :
  starts_with p s = true -> contains p s = true.
Proof. intros H. destruct s; simpl; now rewrite H. Qed.

Lemma contains_app (a p b : text) : contains p (a ++ p ++ b) = true.
Proof.
  induction a as [|x a IH]; simpl.
  - apply contains_starts, starts_with_app.
  - rewrite IH. apply orb_true_r.
Qed.

Lemma contains_inv (p s : text) :
  contains p s = true -> exists a b, s = a ++ p ++ b.
Proof.
  induction s as [|x s IH]; simpl; intros H.
  - rewrite orb_false_r in H. destruct (starts_with_inv _ _ H) as [b E].
    now exists [], b.
  - apply orb_true_iff in H as [H|H].
    + destruct (starts_with_inv _ _ H) as [b E]. now exists [], b.
    + destruct (IH H) as (a & b & ->). now exists (x :: a), b.
Qed.

(** A phrase found in a text is found in every text around it. *)
Lemma contains_around (p t a b : text) :
  contains p t = true -> contains p (a ++ t ++ b) = true.
Proof.
  intros H. destruct (contains_inv _ _ H) as (u & v & ->).
  replace (a ++ (u ++ p ++ v) ++ b) with ((a ++ u) ++ p ++ (v ++ b))
    by now rewrite <- !app_assoc.
  apply contains_app.
Qed.

Lemma any_in_around (phrases : list text) (t a b : text) :
  any_in phrases t = true -> any_in phrases (a ++ t ++ b) = true.
Proof.
  unfold any_in. rewrite !existsb_exists.
  intros (p & Hp & H). exists p. split; [assumption|].
  now apply contains_around.
Qed.

Lemma lower_app (a b : text) : lower (a ++ b) = lower a ++ lower b.
Proof. apply map_app. Qed.

(** [lstrip] leaves a suffix that does not start with a stripped character. *)
Lemma lstrip_suffix (chars s : text) : exists a, s = a ++ lstrip chars s.
Proof.
  induction s as [|c s [a IH]]; simpl.
  - now exists [].
  - destruct (mem c chars).
    + exists (c :: a). simpl. now f_equal.
    + now exists [].
Qed.

Lemma lstrip_head (chars s : text) (c : ascii) (r : text) :
  lstrip chars s = c :: r -> mem c chars = false.
Proof.
  induction s as [|x s IH]; simpl; [discriminate|].
  destruct (mem x chars) eqn:E; [assumption|].
  intros H. injection H as -> _. assumption.
Qed.

Lemma rstrip_prefix (chars s : text) : exists b, s = rstrip chars s ++ b.
Proof.
  unfold rstrip. destruct (lstrip_suffix chars (rev s)) as [a E].
  exists (rev a). rewrite <- rev_app_distr, <- E. symmetry. apply rev_involutive.
Qed.

Lemma rstrip_last (chars s r : text) (c : ascii) :
  rstrip chars s = r ++ [c] -> mem c chars = false.
Proof.
  unfold rstrip. intros H.
  apply (f_equal (@rev ascii)) in H.
  rewrite rev_involutive, rev_app_distr in H. simpl in H.
  now apply lstrip_head in H.
Qed.

(** [rstrip] keeps the first character of what it leaves. *)
Lemma rstrip_head (chars s : text) (c : ascii) (r : text) :
  rstrip chars s = c :: r -> exists r', s = c :: r'.
Proof.
  intros H. destruct (rstrip_prefix chars s) as [b E].
  rewrite H in E. simpl in E. eauto.
Qed.

Lemma strip_head (chars s : text) (c : ascii) (r : text) :
  strip chars s = c :: r -> mem c chars = false.
Proof.
  unfold strip. intros H.
  destruct (rstrip_head _ _ _ _ H) as [r' E].
  now apply lstrip_head in E.
Qed.

Lemma strip_last (chars s r : text) (c : ascii) :
  strip chars s = r ++ [c] -> mem c chars = false.
Proof. unfold strip. apply rstrip_last. Qed.

Lemma strip_incl (chars s : text) (c : ascii) :
  In c (strip chars s) -> In c s.
Proof.
  unfold strip. intros H.
  destruct (rstrip_prefix chars (lstrip chars s)) as [b E].
  destruct (lstrip_suffix chars s) as [a E'].
  rewrite E', E. apply in_or_app. right. apply in_or_app. now left.
Qed.

End TextFacts.

(* ------------------------------------------------------------------ *)
(** ** The matcher finds words of the language *)

Section MatcherSound.

Variable A : Type.

Lemma star_greedy_sound (c : ascii -> bool) (s : text)
    (k : text -> text -> option A) (a : A) :
  star_greedy c s k = Some a ->
  exists w s', s = w ++ s' /\ Forall (fun x => c x = true) w /\ k w s' = Some a.
Proof.
  revert k; induction s as [|x s IH]; intros k H; simpl in H.
  - exists [], []. auto.
  - destruct (c x) eqn:Hc.
    + destruct (star_greedy c s (fun w r => k (x :: w) r)) eqn:E.
      * injection H as ->. apply IH in E as (w & s' & -> & Hw & Hk).
        exists (x :: w), s'. auto.
      * exists [], (x :: s). auto.
    + exists [], (x :: s). auto.
Qed.

Lemma star_lazy_sound (c : ascii -> bool) (s : text)
    (k : text -> text -> option A) (a : A) :
  star_lazy c s k = Some a ->
  exists w s', s = w ++ s' /\ Forall (fun x => c x = true) w /\ k w s' = Some a.
Proof.
  revert k; induction s as [|x s IH]; intros k H; simpl in H.
  - destruct (k [] []) eqn:E; [|discriminate].
    exists [], []. rewrite E. auto.
  - destruct (k [] (x :: s)) eqn:E.
    + exists [], (x :: s). rewrite E. auto.
    + destruct (c x) eqn:Hc; [|discriminate].
      apply IH in H as (w & s' & -> & Hw & Hk).
      exists (x :: w), s'. auto.
Qed.

End MatcherSound.

Lemma rmatch_sound (A : Type) (r : regex) :
  forall (s : text) (k : text -> text -> option A) (a : A),
    rmatch r s k = Some a ->
    exists w s', s = w ++ s' /\ lang r w /\ k w s' = Some a.
Proof.
  induction r as [|c|r1 IH1 r2 IH2|r1 IH1 r2 IH2|greedy c]; intros s k a H; simpl in H.
  - exists [], s. simpl. auto.
  - destruct s as [|x s]; [discriminate|].
    destruct (c x) eqn:Hc; [|discriminate].
    exists [x], s. simpl. eauto.
  - apply IH1 in H as (w1 & s1 & -> & L1 & H).
    apply IH2 in H as (w2 & s2 & -> & L2 & H).
    exists (w1 ++ w2), s2. rewrite <- app_assoc. simpl. eauto 7.
  - destruct (rmatch r1 s k) eqn:E.
    + injection H as ->. apply IH1 in E as (w & s' & -> & L & Hk).
      exists w, s'. simpl. auto.
    + apply IH2 in H as (w & s' & -> & L & Hk).
      exists w, s'. simpl. auto.
  - destruct greedy.
    + apply star_greedy_sound in H as (w & s' & -> & L & Hk). exists w, s'. auto.
    + apply star_lazy_sound in H as (w & s' & -> & L & Hk). exists w, s'. auto.
Qed.

Lemma match_here_sound (p : pattern) (s g : text) :
  match_here p s = Some g ->
  exists w1 w3 post,
    s = w1 ++ g ++ w3 ++ post /\
    lang (before p) w1 /\ lang (group1 p) g /\ lang (after p) w3.
Proof.
  unfold match_here. intros H.
  apply rmatch_sound in H as (w1 & s1 & -> & L1 & H).
  apply rmatch_sound in H as (w2 & s2 & -> & L2 & H).
  apply rmatch_sound in H as (w3 & s3 & -> & L3 & H).
  injection H as ->. exists w1, w3, s3. auto.
Qed.

Lemma re_search_sound (p : pattern) (s g : text) :
  re_search p s = Some g -> matches_in p s g.
Proof.
  induction s as [|x s IH]; simpl; intros H.
  - destruct (match_here p []) eqn:E; [|discriminate].
    injection H as ->. apply match_here_sound in E as (w1 & w3 & post & E & L).
    exists [], w1, w3, post. auto.
  - destruct (match_here p (x :: s)) eqn:E.
    + injection H as ->. apply match_here_sound in E as (w1 & w3 & post & E & L).
      exists [], w1, w3, post. auto.
    + apply IH in H as (pre & w1 & w3 & post & -> & L).
      exists (x :: pre), w1, w3, post. auto.
Qed.

Lemma first_match_sound (ps : list pattern) (s g : text) :
  first_match ps s = Some g -> exists p, In p ps /\ matches_in p s g.
Proof.
  induction ps as [|p ps IH]; simpl; [discriminate|].
  destruct (re_search p s) eqn:E.
  - intros H. injection H as ->. exists p. split; [now left|].
    now apply re_search_sound.
  - intros H. apply IH in H as (q & Hq & M). exists q. auto.
Qed.

(** The text of group 1 lies inside the text searched. *)
Lemma matches_in_incl (p : pattern) (s g : text) (c : ascii) :
  matches_in p s g -> In c g -> In c s.
Proof.
  intros (pre & w1 & w3 & post & -> & _) H.
  apply in_or_app. right. apply in_or_app. right. apply in_or_app. now left.
Qed.

(** A group [c+] is a non-empty run of characters of [c]. *)
Lemma lang_plus (c : ascii -> bool) (w : text) :
  lang (plus c) w -> w <> [] /\ Forall (fun x => c x = true) w.
Proof.
  simpl. intros (w1 & w2 & -> & (x & -> & Hx) & Hw). split; [discriminate|].
  constructor; assumption.
Qed.

(* ------------------------------------------------------------------ *)
(** ** Policy detection *)

Section Detection.

Import RequestParser.

Lemma In_append_if (cond : bool) (kind : string) (l : list text) (p : text) :
  In p (append_if cond kind l) <-> In p l \/ (cond = true /\ p = str kind).
Proof.
  unfold append_if. destruct cond.
  - rewrite in_app_iff. simpl. intuition.
  - intuition discriminate.
Qed.

(** When a policy kind is detected: one of its phrases is in the
    lower-cased message. *)
Lemma detect_policies_In (m p : text) :
  In p (detect_policies m) <->
    (any_in security_phrases (lower m) = true /\ p = str "VerifyAPIKey") \/
    (contains (str "cors") (lower m) = true /\ p = str "CORS") \/
    (any_in quota_phrases (lower m) = true /\ p = str "Quota") \/
    (any_in spike_phrases (lower m) = true /\ p = str "SpikeArrest") \/
    (any_in javascript_phrases (lower m) = true /\ p = str "JavaScript") \/
    (any_in assign_phrases (lower m) = true /\ p = str "AssignMessage").
Proof.
  unfold detect_policies. rewrite !In_append_if. simpl. tauto.
Qed.

(** A detected kind stays detected in any text around the message. *)
Lemma detect_policies_around (t a b p : text) :
  In p (detect_policies t) -> In p (detect_policies (a ++ t ++ b)).
Proof.
  rewrite !detect_policies_In, !lower_app.
  intros [[H ->]|[[H ->]|[[H ->]|[[H ->]|[[H ->]|[H ->]]]]]];
    first [ apply (any_in_around _ _ (lower a) (lower b)) in H
          | apply (contains_around _ _ (lower a) (lower b)) in H ];
    tauto.
Qed.

(** The result of [detect_policies], by cases on the six tests. *)
Lemma detect_policies_cases (P : list text -> Prop) :
  (forall b1 b2 b3 b4 b5 b6 : bool,
     P (append_if b6 "AssignMessage" (append_if b5 "JavaScript"
        (append_if b4 "SpikeArrest" (append_if b3 "Quota"
        (append_if b2 "CORS" (append_if b1 "VerifyAPIKey" []))))))) ->
  forall m, P (detect_policies m).
Proof. intros H m. apply H. Qed.

(** Every detected kind is one of the six. *)
Lemma detect_policies_kinds (m : text) : incl (detect_policies m) policy_kinds.
Proof.
  revert m. apply (detect_policies_cases (fun l => incl l policy_kinds)).
  intros [] [] [] [] [] [] p; vm_compute; tauto.
Qed.

(** A phrase put inside the text, and not at one of its ends, can break a
    phrase that was there: "quota" is no longer found once "cors" is put
    in the middle of it. *)
Lemma detect_policies_splice :
  In (str "Quota") (detect_policies (str "qu" ++ str "ota")) /\
  ~ In (str "Quota") (detect_policies (str "qu" ++ str "cors" ++ str "ota")).
Proof.
  split.
  - apply in_list_In. reflexivity.
  - apply in_list_false. reflexivity.
Qed.

End Detection.

(** C3.  For every message, [detect_policies] returns a list without
    duplicates, whose elements belong to the enumeration of the six policy
    kinds and come in the fixed priority order VerifyAPIKey, CORS, Quota,
    SpikeArrest, JavaScript, AssignMessage; and when the message mentions a
    quota phrase and a spike phrase, both Quota and SpikeArrest are in the
    list, Quota before SpikeArrest. *)
Theorem detect_policies_fixed_order (m : text) :
  NoDup (RequestParser.detect_policies m) /\
  incl (RequestParser.detect_policies m) policy_kinds /\
  subseq (RequestParser.detect_policies m) policy_kinds = true /\
  (any_in RequestParser.quota_phrases (lower m) = true ->
   any_in RequestParser.spike_phrases (lower m) = true ->
   In (str "Quota") (RequestParser.detect_policies m) /\
   In (str "SpikeArrest") (RequestParser.detect_policies m) /\
   subseq [str "Quota"; str "SpikeArrest"] (RequestParser.detect_policies m) = true).
Proof.
  split; [|split; [|split]].
  - revert m. apply (detect_policies_cases (@NoDup text)).
    intros [] [] [] [] [] []; vm_compute;
      repeat (constructor; [simpl; intuition discriminate|]); constructor.
  - apply detect_policies_kinds.
  - revert m. apply (detect_policies_cases (fun l => subseq l policy_kinds = true)).
    intros [] [] [] [] [] []; reflexivity.
  - intros Hq Hs. unfold RequestParser.detect_policies. rewrite Hq, Hs.
    destruct (any_in RequestParser.security_phrases (lower m)),
             (contains (str "cors") (lower m)),
             (any_in RequestParser.javascript_phrases (lower m)),
             (any_in RequestParser.assign_phrases (lower m));
      vm_compute; tauto.
Qed.

(** The order claim of C3 on a message that mentions quota and spike. *)
Lemma detect_policies_fixed_order_witness :
  let m := str "Add a spike guard and a QUOTA, with CORS" in
  any_in RequestParser.quota_phrases (lower m) = true /\
  any_in RequestParser.spike_phrases (lower m) = true /\
  RequestParser.detect_policies m = [str "CORS"; str "Quota"; str "SpikeArrest"] /\
  subseq [str "Quota"; str "SpikeArrest"] (RequestParser.detect_policies m) = true.
Proof.
  intros m.
  assert (Hq : any_in RequestParser.quota_phrases (lower m) = true) by reflexivity.
  assert (Hs : any_in RequestParser.spike_phrases (lower m) = true) by reflexivity.
  destruct (detect_policies_fixed_order m) as (_ & _ & _ & H).
  destruct (H Hq Hs) as (_ & _ & Hsub).
  split; [exact Hq | split; [exact Hs | split; [reflexivity | exact Hsub]]].
Defined.

(** C9, as stated, fails when the phrase is put inside the text: "apply a
    rate limit" asks for a quota by its phrase "rate limit"; with the
    recognized phrase "cors" put between the two words, alone or followed
    by a blank, no quota phrase is left and Quota is no longer detected. *)
Lemma detect_policies_insertion_counterexample :
  In (str "cors") recognized_phrases /\
  In (str "Quota") (RequestParser.detect_policies (str "apply a rate " ++ str "limit")) /\
  ~ In (str "Quota")
      (RequestParser.detect_policies (str "apply a rate " ++ str "cors" ++ str "limit")) /\
  ~ In (str "Quota")
      (RequestParser.detect_policies (str "apply a rate " ++ str "cors " ++ str "limit")).
Proof.
  split; [apply in_list_In; reflexivity|].
  split; [apply in_list_In; reflexivity|].
  split; intros H; apply in_list_In in H; discriminate H.
Qed.

(** C9, amended.  Every policy kind detected in a text is still detected
    after a recognized phrase is added at the end or at the start of the
    text, with or without more text around the two. *)
Theorem detect_policies_monotonic (t k p : text) :
  In k recognized_phrases ->
  In p (RequestParser.detect_policies t) ->
  In p (RequestParser.detect_policies (t ++ k)) /\
  In p (RequestParser.detect_policies (k ++ t)) /\
  (forall a b, In p (RequestParser.detect_policies (a ++ k ++ t ++ b)) /\
               In p (RequestParser.detect_policies (a ++ t ++ k ++ b))).
Proof.
  intros _ H. split; [|split].
  - apply (detect_policies_around t [] k) in H. exact H.
  - apply (detect_policies_around t k []) in H. now rewrite app_nil_r in H.
  - intros a b. split.
    + pose proof (detect_policies_around t (a ++ k) b p H) as H'.
      now rewrite <- app_assoc in H'.
    + pose proof (detect_policies_around t a (k ++ b) p H) as H'. exact H'.
Qed.

Lemma detect_policies_monotonic_witness :
  In (str "CORS") (RequestParser.detect_policies (str "enable cors " ++ str "quota")) /\
  In (str "CORS") (RequestParser.detect_policies (str "quota" ++ str "enable cors ")).
Proof.
  destruct (detect_policies_monotonic (str "enable cors ") (str "quota") (str "CORS"))
    as (H1 & H2 & _).
  - apply in_list_In. reflexivity.
  - apply in_list_In. reflexivity.
  - split; [exact H1 | exact H2].
Defined.

(* ------------------------------------------------------------------ *)
(** ** Characters: facts checked on all 256 of them *)

Ltac all_chars c :=
  destruct c as [[] [] [] [] [] [] [] []]; vm_compute; try reflexivity;
  try discriminate; try tauto.

Lemma lower_char_not_upper (c : ascii) : is_upper (lower_char c) = false.
Proof. all_chars c. Qed.

Lemma is_digit_lower (c : ascii) : is_digit (lower_char c) = is_digit c.
Proof. all_chars c. Qed.

Lemma is_space_lower (c : ascii) : is_space (lower_char c) = is_space c.
Proof. all_chars c. Qed.

Lemma name_char_not_slash (c : ascii) :
  RequestParser.name_char c = true -> c <> "/"%char.
Proof. all_chars c. Qed.

Lemma name_char_replace (c : ascii) :
  RequestParser.name_char c = true ->
  RequestParser.name_char (if Ascii.eqb c " " then "-"%char else c) = true.
Proof. all_chars c. Qed.

Lemma non_space_punct_non_space (c : ascii) :
  RequestParser.non_space_punct c = true -> RequestParser.non_space c = true.
Proof. all_chars c. Qed.

Lemma url_char_non_space (c : ascii) :
  RequestParser.url_char c = true -> RequestParser.non_space c = true.
Proof. all_chars c. Qed.

Lemma replace_space_not_upper (c : ascii) :
  is_upper c = false -> is_upper (if Ascii.eqb c " " then "-"%char else c) = false.
Proof. all_chars c. Qed.

Lemma lower_not_upper (s : text) : Forall (fun c => is_upper c = false) (lower s).
Proof.
  apply Forall_forall. intros c H. apply in_map_iff in H as (x & <- & _).
  apply lower_char_not_upper.
Qed.

(* ------------------------------------------------------------------ *)
(** ** The extractor: name and base path *)

Section Extractor.

Import RequestParser.

Lemma name_eq (m : text) :
  name (extract_proxy_details m) =
  match first_match name_patterns (lower m) with
  | Some g => replace_char " " "-" g
  | None => default_name
  end.
Proof. reflexivity. Qed.

Lemma base_path_eq (m : text) :
  base_path (extract_proxy_details m) =
  match first_match base_path_patterns (lower m) with
  | Some g => "/"%char :: strip (str "/") g
  | None => "/"%char :: name (extract_proxy_details m)
  end.
Proof. reflexivity. Qed.

Lemma target_url_eq (m : text) :
  target_url (extract_proxy_details m) =
  match find_target_url url_patterns m with
  | Some url => url
  | None => default_target_url
  end.
Proof. reflexivity. Qed.

(** Where the name comes from. *)
Lemma name_cases (m : text) :
  name (extract_proxy_details m) = default_name \/
  exists p g, In p name_patterns /\ matches_in p (lower m) g /\
              name (extract_proxy_details m) = replace_char " " "-" g.
Proof.
  rewrite name_eq.
  destruct (first_match name_patterns (lower m)) as [g|] eqn:E; [right | now left].
  apply first_match_sound in E as (p & Hp & M). eauto.
Qed.

(** Where the base path comes from. *)
Lemma base_path_cases (m : text) :
  base_path (extract_proxy_details m) = "/"%char :: name (extract_proxy_details m) \/
  exists p g, In p base_path_patterns /\ matches_in p (lower m) g /\
              base_path (extract_proxy_details m) = "/"%char :: strip (str "/") g.
Proof.
  rewrite base_path_eq.
  destruct (first_match base_path_patterns (lower m)) as [g|] eqn:E; [right | now left].
  apply first_match_sound in E as (p & Hp & M). eauto.
Qed.

Lemma name_patterns_group (p : pattern) :
  In p name_patterns -> group1 p = name_group.
Proof. simpl. intuition (subst; reflexivity). Qed.

(** The name is a non-empty run of characters of [[a-zA-Z0-9\-_]]. *)
Lemma name_chars (m : text) :
  name (extract_proxy_details m) <> [] /\
  Forall (fun c => name_char c = true) (name (extract_proxy_details m)).
Proof.
  destruct (name_cases m) as [-> | (p & g & Hp & M & ->)].
  - split; [discriminate|]. vm_compute. repeat constructor.
  - destruct M as (pre & w1 & w3 & post & _ & _ & L & _).
    rewrite (name_patterns_group _ Hp) in L.
    apply lang_plus in L as [Hne Hall]. split.
    + destruct g; [congruence | discriminate].
    + unfold replace_char. apply Forall_map.
      eapply Forall_impl; [|exact Hall]. apply name_char_replace.
Qed.

Lemma name_not_upper (m : text) :
  Forall (fun c => is_upper c = false) (name (extract_proxy_details m)).
Proof.
  destruct (name_cases m) as [-> | (p & g & Hp & M & ->)].
  - vm_compute. repeat constructor.
  - unfold replace_char. apply Forall_map, Forall_forall. intros c Hc.
    apply replace_space_not_upper.
    apply (matches_in_incl _ _ _ _ M) in Hc.
    exact (proj1 (Forall_forall _ _) (lower_not_upper m) c Hc).
Qed.

Lemma base_path_not_upper (m : text) :
  Forall (fun c => is_upper c = false) (base_path (extract_proxy_details m)).
Proof.
  destruct (base_path_cases m) as [-> | (p & g & Hp & M & ->)].
  - constructor; [reflexivity | apply name_not_upper].
  - constructor; [reflexivity|]. apply Forall_forall. intros c Hc.
    apply strip_incl in Hc. apply (matches_in_incl _ _ _ _ M) in Hc.
    exact (proj1 (Forall_forall _ _) (lower_not_upper m) c Hc).
Qed.

(** A non-empty run that neither starts nor ends with [/], put after one
    [/], is a well-formed base path. *)
Lemma well_formed_base_path_intro (p : text) :
  p <> [] ->
  (forall c r, p = c :: r -> c <> "/"%char) ->
  (forall r c, p = r ++ [c] -> c <> "/"%char) ->
  well_formed_base_path ("/"%char :: p) = true.
Proof.
  intros Hne Hhd Hlast. unfold well_formed_base_path, ends_with_char.
  destruct p as [|c r]; [congruence|].
  assert (Hc : Ascii.eqb "/" c = false).
  { apply Ascii.eqb_neq. intros E. now apply (Hhd c r eq_refl). }
  change (str "/") with ["/"%char]. change (str "//") with ["/"%char; "/"%char].
  cbn [starts_with]. rewrite Ascii.eqb_refl, Hc. cbn [andb negb rev].
  destruct (rev r ++ [c]) as [|x l] eqn:E.
  - destruct (rev r); discriminate.
  - simpl. apply negb_true_iff, Ascii.eqb_neq.
    apply (Hlast (rev l) x).
    apply (f_equal (@rev ascii)) in E.
    rewrite rev_app_distr, rev_involutive in E. simpl in E.
    rewrite E. reflexivity.
Qed.

End Extractor.

(** C10.  For every message, the name and the base path that
    [extract_proxy_details] returns have no upper-case letter: the name and
    base-path patterns are matched against the lower-cased message.  So
    "named Booking-API" gives the name "booking-api". *)
Theorem extracted_identifiers_lower_case (m : text) :
  Forall (fun c => is_upper c = false)
         (RequestParser.name (RequestParser.extract_proxy_details m)) /\
  Forall (fun c => is_upper c = false)
         (RequestParser.base_path (RequestParser.extract_proxy_details m)) /\
  RequestParser.name (RequestParser.extract_proxy_details (str "named Booking-API"))
    = str "booking-api".
Proof.
  split; [apply name_not_upper | split; [apply base_path_not_upper | reflexivity]].
Qed.

Lemma not_mem_slash (c : ascii) : mem c (str "/") = false -> c <> "/"%char.
Proof.
  unfold mem. simpl. rewrite orb_false_r. apply Ascii.eqb_neq.
Qed.

(** C2, as stated, fails: for the message "path /" the captured path is
    "/", nothing is left of it after [strip('/')], and the base path is
    "/", which ends with "/". *)
Lemma base_path_root_counterexample :
  RequestParser.base_path (RequestParser.extract_proxy_details (str "path /")) = str "/" /\
  well_formed_base_path
    (RequestParser.base_path (RequestParser.extract_proxy_details (str "path /"))) = false.
Proof. split; reflexivity. Qed.

Lemma lstrip_nil (chars s : text) :
  lstrip chars s = [] -> Forall (fun c => mem c chars = true) s.
Proof.
  induction s as [|c s IH]; simpl; intros H; [constructor|].
  destruct (mem c chars) eqn:E; [|discriminate].
  constructor; auto.
Qed.

Lemma lstrip_stripped (chars s : text) :
  exists a, s = a ++ lstrip chars s /\ Forall (fun c => mem c chars = true) a.
Proof.
  induction s as [|c s (a & IH & Ha)]; simpl.
  - exists []. auto.
  - destruct (mem c chars) eqn:E.
    + exists (c :: a). simpl. split; [now f_equal | now constructor].
    + exists []. auto.
Qed.

(** When [strip] leaves nothing, there were only stripped characters. *)
Lemma strip_nil (chars s : text) :
  strip chars s = [] -> Forall (fun c => mem c chars = true) s.
Proof.
  unfold strip, rstrip. intros H.
  apply (f_equal (@rev ascii)) in H. rewrite rev_involutive in H. simpl in H.
  apply lstrip_nil in H. apply Forall_rev in H. rewrite rev_involutive in H.
  destruct (lstrip_stripped chars s) as (a & E & Ha).
  rewrite E. apply Forall_app. auto.
Qed.

(** C2, amended.  For every message, the base path that
    [extract_proxy_details] returns begins with exactly one "/" and has no
    trailing "/", unless it is exactly "/", which happens only when a
    base-path pattern captured a path made of "/" characters alone. *)
Theorem base_path_root_or_well_formed (m : text) :
  well_formed_base_path
    (RequestParser.base_path (RequestParser.extract_proxy_details m)) = true \/
  (RequestParser.base_path (RequestParser.extract_proxy_details m) = str "/" /\
   exists p g, In p RequestParser.base_path_patterns /\
               matches_in p (lower m) g /\
               Forall (fun c => c = "/"%char) g).
Proof.
  destruct (base_path_cases m) as [-> | (p & g & Hp & M & ->)].
  - left. destruct (name_chars m) as [Hne Hall].
    apply well_formed_base_path_intro; [assumption | |].
    + intros c r E. rewrite E in Hall. inversion Hall; subst.
      now apply name_char_not_slash.
    + intros r c E. rewrite E in Hall. apply Forall_app in Hall as [_ Hc].
      inversion Hc; subst. now apply name_char_not_slash.
  - destruct (strip (str "/") g) as [|c r] eqn:E; [right | left].
    + split; [reflexivity|]. exists p, g. repeat split; try assumption.
      apply strip_nil in E. eapply Forall_impl; [|exact E].
      intros c Hc. apply mem_In in Hc. simpl in Hc. intuition.
    + rewrite <- E. apply well_formed_base_path_intro.
      * rewrite E. discriminate.
      * intros c' r' E'. apply not_mem_slash. exact (strip_head _ _ _ _ E').
      * intros r' c' E'. apply not_mem_slash. exact (strip_last _ _ _ _ E').
Qed.

(* ------------------------------------------------------------------ *)
(** ** The extractor: target URL *)

Section TargetUrl.

Import RequestParser.

(** Where an extracted URL comes from: a match of some URL pattern, whose
    group passed the test on length and on the period. *)
Lemma find_target_url_sound (ps : list pattern) (m u : text) :
  find_target_url ps m = Some u ->
  exists p g, In p ps /\ matches_in p m g /\ u = rstrip (str ".,;") g /\
              10 < length u /\ mem "." u = true.
Proof.
  induction ps as [|p ps IH]; cbn [find_target_url]; [discriminate|].
  destruct (re_search p m) as [g|] eqn:E.
  - destruct ((10 <? length (rstrip (str ".,;") g))%nat &&
              mem "." (rstrip (str ".,;") g)) eqn:G.
    + intros H. injection H as <-.
      apply andb_true_iff in G as [G1 G2]. apply Nat.ltb_lt in G1.
      exists p, g. repeat split; auto; [now left | now apply re_search_sound].
    + intros H. apply IH in H as (q & g' & Hq & H). exists q, g'.
      split; [now right | exact H].
  - intros H. apply IH in H as (q & g' & Hq & H). exists q, g'.
    split; [now right | exact H].
Qed.

Lemma lang_sets_within (P : ascii -> Prop) (r : regex) :
  sets_within P r -> forall w, lang r w -> Forall P w.
Proof.
  induction r as [|c|r1 IH1 r2 IH2|r1 IH1 r2 IH2|greedy c]; simpl; intros S w L.
  - subst. constructor.
  - destruct L as (x & -> & Hx). auto.
  - destruct S as [S1 S2]. destruct L as (w1 & w2 & -> & L1 & L2).
    apply Forall_app. auto.
  - destruct S as [S1 S2]. destruct L as [L|L]; auto.
  - eapply Forall_impl; [|exact L]. auto.
Qed.

Lemma lang_chr_ic (c : ascii) (w : text) :
  lang (chr true c) w -> lower w = [lower_char c].
Proof.
  simpl. intros (x & -> & Hx). apply Ascii.eqb_eq in Hx. simpl. now rewrite Hx.
Qed.

(** A literal under [re.IGNORECASE] matches texts equal to it up to case. *)
Lemma lang_lit_ic (s w : text) :
  lang (lit_chars true s) w -> lower w = lower s.
Proof.
  revert w; induction s as [|c s IH]; intros w L.
  - simpl in L. now subst.
  - destruct s as [|c' s'].
    + now apply lang_chr_ic.
    + change (lit_chars true (c :: c' :: s'))
        with (Seq (chr true c) (lit_chars true (c' :: s'))) in L.
      destruct L as (w1 & w2 & -> & L1 & L2).
      rewrite lower_app, (lang_chr_ic _ _ L1), (IH _ L2). reflexivity.
Qed.

Lemma lang_scheme (w : text) :
  lang scheme w -> lower w = str "http://" \/ lower w = str "https://".
Proof.
  unfold scheme, lit. intros (w1 & w' & -> & L1 & w2 & w3 & -> & L2 & L3).
  apply lang_lit_ic in L1, L3. rewrite !lower_app, L1, L3.
  destruct L2 as [L2|L2].
  - apply lang_lit_ic in L2. rewrite L2. now right.
  - simpl in L2. subst. now left.
Qed.

Lemma sets_within_scheme : sets_within (fun c => non_space c = true) scheme.
Proof.
  unfold non_space. simpl. repeat split; intros x; all_chars x.
Qed.


Lemma has_http_scheme_app (w t : text) :
  lang scheme w -> has_http_scheme (w ++ t) = true.
Proof.
  intros L. unfold has_http_scheme. rewrite lower_app.
  destruct (lang_scheme _ L) as [-> | ->].
  - rewrite (starts_with_app (str "http://")). reflexivity.
  - rewrite (starts_with_app (str "https://")). apply orb_true_r.
Qed.


(** What group 1 of every URL pattern matches: a text that starts with the
    scheme and has no white space. *)
Lemma url_patterns_group (p : pattern) (g : text) :
  In p url_patterns -> lang (group1 p) g ->
  has_http_scheme g = true /\ Forall (fun c => non_space c = true) g.
Proof.
  intros Hp L.
  assert (T : exists tail, group1 p = Seq scheme tail /\
                           sets_within (fun c => non_space c = true) tail).
  { simpl in Hp.
    destruct Hp as [<-|[<-|[<-|[<-|[<-|[<-|[<-|[]]]]]]]]; simpl group1;
      eexists; (split; [reflexivity|]).
    1-5: simpl; split; intros x; tauto.
    - simpl; split; intros x; apply non_space_punct_non_space.
    - unfold non_space. simpl. repeat split; intros x;
        first [ apply url_char_non_space | all_chars x ]. }
  destruct T as (tail & E & S). rewrite E in L.
  destruct L as (w & t & -> & Lw & Lt). split.
  - now apply has_http_scheme_app.
  - apply Forall_app. split.
    + exact (lang_sets_within _ _ sets_within_scheme _ Lw).
    + exact (lang_sets_within _ _ S _ Lt).
Qed.

End TargetUrl.

Lemma rstrip_ends (chars s : text) : ends_with_any chars (rstrip chars s) = false.
Proof.
  unfold ends_with_any, rstrip. rewrite rev_involutive.
  destruct (lstrip chars (rev s)) as [|x l] eqn:E; [reflexivity|].
  exact (lstrip_head _ _ _ _ E).
Qed.






(* ------------------------------------------------------------------ *)
(** ** The matcher finds a match whenever there is one *)

Section MatcherComplete.

Variable A : Type.

Lemma star_greedy_complete (c : ascii -> bool) (w : text) :
  Forall (fun x => c x = true) w ->
  forall (s' : text) (k : text -> text -> option A),
    k w s' <> None -> star_greedy c (w ++ s') k <> None.
Proof.
  induction 1 as [|x w Hx Hw IH]; intros s' k Hk.
  - destruct s' as [|y s']; [exact Hk|]. cbn [app star_greedy].
    destruct (c y); [|exact Hk].
    destruct (star_greedy c s' (fun w r => k (y :: w) r)); [discriminate | exact Hk].
  - cbn [app star_greedy]. rewrite Hx.
    specialize (IH s' (fun w r => k (x :: w) r) Hk).
    destruct (star_greedy c (w ++ s') (fun w r => k (x :: w) r));
      [discriminate | contradiction].
Qed.

Lemma star_lazy_complete (c : ascii -> bool) (w : text) :
  Forall (fun x => c x = true) w ->
  forall (s' : text) (k : text -> text -> option A),
    k w s' <> None -> star_lazy c (w ++ s') k <> None.
Proof.
  induction 1 as [|x w Hx Hw IH]; intros s' k Hk.
  - destruct s' as [|y s']; cbn [app star_lazy].
    + destruct (k [] []); [discriminate | contradiction].
    + destruct (k [] (y :: s')); [discriminate | contradiction].
  - cbn [app star_lazy].
    destruct (k [] (x :: w ++ s')); [discriminate|].
    rewrite Hx. apply IH. exact Hk.
Qed.

End MatcherComplete.

Lemma rmatch_complete (A : Type) (r : regex) :
  forall (w s' : text) (k : text -> text -> option A),
    lang r w -> k w s' <> None -> rmatch r (w ++ s') k <> None.
Proof.
  induction r as [|c|r1 IH1 r2 IH2|r1 IH1 r2 IH2|greedy c]; intros w s' k L Hk;
    cbn [rmatch]; simpl in L.
  - subst. exact Hk.
  - destruct L as (x & -> & Hx). cbn [app]. rewrite Hx. exact Hk.
  - destruct L as (w1 & w2 & -> & L1 & L2). rewrite <- app_assoc.
    apply IH1; [exact L1|]. apply IH2; [exact L2 | exact Hk].
  - destruct (rmatch r1 (w ++ s') k) eqn:E; [discriminate|].
    destruct L as [L|L].
    + exfalso. exact (IH1 w s' k L Hk E).
    + now apply IH2.
  - destruct greedy; [now apply star_greedy_complete | now apply star_lazy_complete].
Qed.

Lemma match_here_complete (p : pattern) (w1 g w3 post : text) :
  lang (before p) w1 -> lang (group1 p) g -> lang (after p) w3 ->
  match_here p (w1 ++ g ++ w3 ++ post) <> None.
Proof.
  intros L1 L2 L3. unfold match_here.
  apply rmatch_complete; [exact L1|].
  apply rmatch_complete; [exact L2|].
  apply rmatch_complete; [exact L3|]. discriminate.
Qed.

(** [re.search] returns a match whenever the pattern matches somewhere. *)
Lemma re_search_complete (p : pattern) (s g : text) :
  matches_in p s g -> re_search p s <> None.
Proof.
  intros (pre & w1 & w3 & post & -> & L1 & L2 & L3).
  induction pre as [|x pre IH].
  - cbn [app]. pose proof (match_here_complete p w1 g w3 post L1 L2 L3) as H.
    destruct (w1 ++ g ++ w3 ++ post); cbn [re_search];
      destruct (match_here p _); try discriminate; contradiction.
  - cbn [app re_search].
    destruct (match_here p (x :: pre ++ w1 ++ g ++ w3 ++ post));
      [discriminate | exact IH].
Qed.

Lemma re_search_None (p : pattern) (s : text) :
  re_search p s = None <-> forall g, ~ matches_in p s g.
Proof.
  split.
  - intros E g M. exact (re_search_complete p s g M E).
  - intros H. destruct (re_search p s) as [g|] eqn:E; [|reflexivity].
    exfalso. exact (H g (re_search_sound p s g E)).
Qed.

(** A literal without [re.IGNORECASE] matches itself only. *)
Lemma lang_lit (s w : text) : lang (lit_chars false s) w -> w = s.
Proof.
  revert w; induction s as [|c s IH]; intros w L.
  - exact L.
  - destruct s as [|c' s'].
    + simpl in L. destruct L as (x & -> & Hx). apply Ascii.eqb_eq in Hx. now subst.
    + change (lit_chars false (c :: c' :: s'))
        with (Seq (chr false c) (lit_chars false (c' :: s'))) in L.
      destruct L as (w1 & w2 & -> & (x & -> & Hx) & L2).
      apply Ascii.eqb_eq in Hx. subst. rewrite (IH _ L2). reflexivity.
Qed.

Lemma lang_lit_self (s : text) : lang (lit_chars false s) s.
Proof.
  induction s as [|c s IH]; [reflexivity|].
  destruct s as [|c' s'].
  - simpl. exists c. split; [reflexivity | apply Ascii.eqb_refl].
  - change (lit_chars false (c :: c' :: s'))
      with (Seq (chr false c) (lit_chars false (c' :: s'))).
    exists [c], (c' :: s'). repeat split; [|exact IH].
    exists c. split; [reflexivity | apply Ascii.eqb_refl].
Qed.

(* ------------------------------------------------------------------ *)
(** ** The spike-arrest rate *)

Section SpikeRate.

Import RequestParser.

(** A pattern that starts with its group [c+] has no match at a character
    outside [c]. *)
Lemma match_here_first_char (p : pattern) (c : ascii -> bool) (x : ascii) (s : text) :
  before p = Eps -> group1 p = plus c -> c x = false ->
  match_here p (x :: s) = None.
Proof.
  intros Hb Hg Hx. unfold match_here. rewrite Hb, Hg. unfold plus.
  cbn [rmatch]. rewrite Hx. reflexivity.
Qed.

Lemma re_search_skip (p : pattern) (c : ascii -> bool) (a s : text) :
  before p = Eps -> group1 p = plus c ->
  Forall (fun x => c x = false) a ->
  re_search p (a ++ s) = re_search p s.
Proof.
  intros Hb Hg Ha. induction Ha as [|x a Hx Ha IH]; [reflexivity|].
  cbn [app re_search]. rewrite (match_here_first_char p c x _ Hb Hg Hx). exact IH.
Qed.

Lemma requests_per_sec_here (b : text) :
  re_search requests_per_sec (str "4 requests per sec" ++ b) = Some (str "4").
Proof. vm_compute. reflexivity. Qed.

Lemma contains_lower (p m : text) :
  contains p m = true -> contains (lower p) (lower m) = true.
Proof.
  intros H. destruct (contains_inv _ _ H) as (a & b & ->).
  rewrite !lower_app. apply contains_app.
Qed.

Lemma spike_arrest_detected (m : text) :
  contains (str "spike arrest") m = true ->
  In (str "SpikeArrest") (detect_policies m).
Proof.
  intros H. apply detect_policies_In. right. right. right. left.
  split; [|reflexivity].
  apply contains_lower in H. unfold any_in. apply existsb_exists.
  exists (str "spike arrest"). split; [now left | exact H].
Qed.

End SpikeRate.

(** *** Where the first rate pattern matches *)

Section RateLocal.

Import RequestParser.

(** [re.search] goes past a prefix at none of whose positions the pattern
    matches. *)
Lemma re_search_past (p : pattern) (a t : text) :
  (forall a1 x a2, a = a1 ++ x :: a2 -> match_here p (x :: a2 ++ t) = None) ->
  re_search p (a ++ t) = re_search p t.
Proof.
  induction a as [|x a IH]; intros H; [reflexivity|].
  cbn [app]. change (re_search p (x :: a ++ t))
    with (match match_here p (x :: a ++ t) with
          | Some g => Some g
          | None => re_search p (a ++ t)
          end).
  rewrite (H [] x a eq_refl). apply IH.
  intros a1 y a2 E. apply (H (x :: a1) y a2). now rewrite E.
Qed.

Lemma ends_with_digit_run (a x : text) :
  x <> [] -> Forall (fun c => is_digit c = true) x ->
  ends_with_digit (a ++ x) = true.
Proof.
  intros Hx Hd. unfold ends_with_digit. rewrite rev_app_distr.
  destruct (rev x) as [|c r] eqn:E.
  - exfalso. apply Hx. rewrite <- (rev_involutive x), E. reflexivity.
  - cbn [app]. rewrite Forall_forall in Hd. apply Hd.
    apply in_rev. rewrite E. now left.
Qed.

Lemma ends_with_digit_lower (a : text) :
  ends_with_digit (lower a) = ends_with_digit a.
Proof.
  unfold ends_with_digit, lower. rewrite <- map_rev.
  destruct (rev a) as [|c r]; [reflexivity|]. cbn [map]. apply is_digit_lower.
Qed.

(** What follows the digits in "N requests per sec" has no digit. *)
Lemma after_requests_per_sec (w : text) :
  lang (after requests_per_sec) w -> Forall (fun c => is_digit c = false) w.
Proof.
  apply lang_sets_within. simpl. repeat split; intros x; all_chars x.
Qed.

(** A match of "N requests per sec" that starts in a text that does not
    end with a digit ends in it too, when a "4" follows the text. *)
Lemma requests_per_sec_local (a t : text) :
  ends_with_digit a = false ->
  re_search requests_per_sec a = None ->
  forall a1 x a2, a = a1 ++ x :: a2 ->
  match_here requests_per_sec (x :: a2 ++ "4"%char :: t) = None.
Proof.
  intros Hend Hnone a1 x a2 Ea.
  destruct (match_here requests_per_sec (x :: a2 ++ "4"%char :: t)) as [g|] eqn:M;
    [exfalso | reflexivity].
  apply match_here_sound in M as (w1 & w3 & post & E & L1 & L2 & L3).
  change (before requests_per_sec) with Eps in L1. simpl in L1. subst w1.
  cbn [app] in E.
  pose proof (lang_plus _ _ L2) as [_ Hg].
  pose proof (after_requests_per_sec _ L3) as Hw.
  assert (P : exists r, x :: a2 = g ++ w3 ++ r).
  { change (x :: a2 ++ "4"%char :: t) with ((x :: a2) ++ "4"%char :: t) in E.
    rewrite app_assoc in E.
    apply app_eq_app in E as (l & [[E1 E2] | [E1 E2]]).
    - exists l. rewrite E1. now rewrite <- app_assoc.
    - destruct l as [|d l].
      + exists []. rewrite app_nil_r in *. now rewrite <- E1.
      + exfalso. cbn [app] in E2. injection E2 as <- _.
        apply app_eq_app in E1 as (l2 & [[E3 E4] | [E3 E4]]).
        * (* the digits run over the end of the text *)
          rewrite Ea in Hend.
          assert (Hx : Forall (fun c => is_digit c = true) (x :: a2)).
          { rewrite E3 in Hg. now apply Forall_app in Hg as [Hg _]. }
          rewrite (ends_with_digit_run a1 (x :: a2)) in Hend;
            [discriminate | discriminate | exact Hx].
        * (* the "4" stands in what follows the digits *)
          rewrite E4 in Hw. apply Forall_app in Hw as [_ Hw].
          inversion Hw as [|? ? H4 _]. discriminate H4. }
  destruct P as (r & Er).
  apply (re_search_complete requests_per_sec a g); [|exact Hnone].
  exists a1, [], w3, r. split; [|split; [reflexivity | split]].
  - cbn [app]. now rewrite Ea, Er.
  - exact L2.
  - exact L3.
Qed.

Lemma requests_per_sec_first (a b : text) :
  ends_with_digit a = false ->
  re_search requests_per_sec (lower a) = None ->
  extract_spike_arrest_rate (a ++ str "4 requests per sec" ++ b) = str "4ps".
Proof.
  intros Hend Hnone. unfold extract_spike_arrest_rate.
  rewrite !lower_app.
  change (lower (str "4 requests per sec")) with (str "4 requests per sec").
  rewrite <- ends_with_digit_lower in Hend.
  assert (E : first_match rate_patterns
                (lower a ++ str "4 requests per sec" ++ lower b) = Some (str "4")).
  { change rate_patterns with (requests_per_sec :: tl rate_patterns).
    cbn [first_match].
    rewrite (re_search_past requests_per_sec (lower a)).
    - rewrite requests_per_sec_here. reflexivity.
    - exact (requests_per_sec_local (lower a) _ Hend Hnone). }
  rewrite E. reflexivity.
Qed.

End RateLocal.

Section RateLeftmost.

Import RequestParser.

(** [re.search] returns the match at the leftmost position that has one. *)
Lemma re_search_leftmost (p : pattern) (a t g : text) :
  re_search p (a ++ t) = Some g ->
  (exists a1 x a2, a = a1 ++ x :: a2 /\ match_here p (x :: a2 ++ t) = Some g) \/
  (forall a1 x a2, a = a1 ++ x :: a2 -> match_here p (x :: a2 ++ t) = None).
Proof.
  induction a as [|x a IH]; intros H.
  { right. intros [|? ?] ? ? E; discriminate E. }
  cbn [app] in H.
  change (re_search p (x :: a ++ t))
    with (match match_here p (x :: a ++ t) with
          | Some g => Some g
          | None => re_search p (a ++ t)
          end) in H.
  destruct (match_here p (x :: a ++ t)) as [g'|] eqn:M.
  - left. exists [], x, a. split; [reflexivity|]. now rewrite M.
  - destruct (IH H) as [(a1 & y & a2 & -> & M')|R]; [left | right].
    + exists (x :: a1), y, a2. split; [reflexivity | exact M'].
    + intros [|z a1] y a2 E; injection E as -> E.
      * subst a. exact M.
      * exact (R a1 y a2 E).
Qed.

Lemma lang_requests_tail :
  lang (after requests_per_sec) (str " requests per sec").
Proof.
  exists (str " "), (str "requests per sec"). split; [reflexivity|].
  split; [repeat constructor|].
  exists (str "request"), (str "s per sec"). split; [reflexivity|].
  split; [apply lang_lit_self|].
  exists (str "s"), (str " per sec"). split; [reflexivity|].
  split; [left; apply lang_lit_self|].
  exists (str " "), (str "per sec"). split; [reflexivity|].
  split; [repeat constructor|].
  exists (str "per"), (str " sec"). split; [reflexivity|].
  split; [apply lang_lit_self|].
  exists (str " "), (str "sec"). split; [reflexivity|].
  split; [repeat constructor | apply lang_lit_self].
Qed.

Lemma ends_with_digit_last (a : text) :
  ends_with_digit a = true ->
  exists a1 d, a = a1 ++ [d] /\ is_digit d = true.
Proof.
  unfold ends_with_digit. intros H.
  destruct (rev a) as [|d r] eqn:E; [discriminate|].
  exists (rev r), d. split; [|exact H].
  rewrite <- (rev_involutive a), E. reflexivity.
Qed.

(** With a digit just before "4 requests per sec", and no match before,
    the digits of the match are more than the "4". *)
Lemma requests_per_sec_longer (a b : text) :
  ends_with_digit a = true ->
  re_search requests_per_sec (lower a) = None ->
  extract_spike_arrest_rate (a ++ str "4 requests per sec" ++ b) <> str "4ps".
Proof.
  intros Hend Hnone. unfold extract_spike_arrest_rate.
  rewrite !lower_app.
  change (lower (str "4 requests per sec")) with (str "4 requests per sec").
  rewrite <- ends_with_digit_lower in Hend.
  set (la := lower a) in *. set (lb := lower b).
  change rate_patterns with (requests_per_sec :: tl rate_patterns).
  cbn [first_match].
  destruct (re_search requests_per_sec (la ++ str "4 requests per sec" ++ lb))
    as [g|] eqn:R.
  2:{ exfalso. revert R. apply (re_search_complete _ _ (str "4")).
      exists la, [], (str " requests per sec"), lb.
      split; [reflexivity|]. split; [reflexivity|]. split.
      - simpl. exists ["4"%char], []. split; [reflexivity|].
        split; [eauto | constructor].
      - apply lang_requests_tail. }
  intros Hrate. assert (Eg : g = str "4").
  { apply (app_inv_tail (str "ps")). exact Hrate. }
  subst g.
  apply re_search_leftmost in R as [(a1 & x & a2 & Ea & M)|R].
  2:{ (* a match at the digit before the phrase comes first *)
      destruct (ends_with_digit_last _ Hend) as (a1 & d & Ea & Hd).
      specialize (R a1 d [] Ea). revert R.
      change (d :: [] ++ str "4 requests per sec" ++ lb)
        with ([] ++ [d; "4"%char] ++ str " requests per sec" ++ lb).
      apply match_here_complete; [reflexivity | | apply lang_requests_tail].
      simpl. exists [d], ["4"%char]. split; [reflexivity|].
      split; [eauto | repeat constructor]. }
  apply match_here_sound in M as (w1 & w3 & post & E & L1 & L2 & L3).
    change (before requests_per_sec) with Eps in L1. simpl in L1. subst w1.
    cbn [app] in E.
    pose proof (after_requests_per_sec _ L3) as Hw.
    change (x :: a2 ++ str "4 requests per sec" ++ lb)
      with ((x :: a2) ++ "4"%char :: str " requests per sec" ++ lb) in E.
    rewrite (app_assoc (str "4") w3 post) in E.
    apply app_eq_app in E as (l & [[E1 E2] | [E1 E2]]).
    + apply (re_search_complete requests_per_sec la (str "4")); [|exact Hnone].
      exists a1, [], w3, l. split; [|split; [reflexivity | split; assumption]].
      rewrite Ea, E1, <- app_assoc. reflexivity.
    + destruct l as [|d l].
      * apply (re_search_complete requests_per_sec la (str "4")); [|exact Hnone].
        exists a1, [], w3, []. split; [|split; [reflexivity | split; assumption]].
        rewrite app_nil_r in E1. rewrite Ea, <- E1, !app_nil_r. reflexivity.
      * cbn [app] in E2. injection E2 as <- _.
        change (str "4" ++ w3) with ("4"%char :: w3) in E1.
        injection E1 as <- E1.
        (* the "4" of the phrase stands in what follows the digits *)
        assert (Hin : In "4"%char w3).
        { rewrite E1. apply in_or_app. right. now left. }
        rewrite Forall_forall in Hw. specialize (Hw _ Hin). discriminate Hw.
Qed.

End RateLeftmost.

(** C7, as stated, fails: "14 requests per sec spike arrest" contains
    "4 requests per sec" and "spike arrest", and its rate is "14ps": the
    digits of the leftmost match are the rate. *)
Lemma spike_rate_longer_number_counterexample :
  contains (str "4 requests per sec") (str "14 requests per sec spike arrest") = true /\
  contains (str "spike arrest") (str "14 requests per sec spike arrest") = true /\
  RequestParser.extract_spike_arrest_rate (str "14 requests per sec spike arrest")
    = str "14ps" /\
  RequestParser.extract_spike_arrest_rate (str "14 requests per sec spike arrest")
    <> str "4ps".
Proof. repeat split; try reflexivity. vm_compute. discriminate. Qed.

(** C7, amended.  For every message, the SpikeArrest descriptor of
    [generate_policy_xml] is the SpikeArrest text with
    [extract_spike_arrest_rate] of that message between [<Rate>] and
    [</Rate>]; a message that contains "spike arrest" has SpikeArrest among
    its detected policies; and where the message contains
    "4 requests per sec" and the first rate pattern has no match in the
    lower-cased text before it, the rate is "4ps", with [<Rate>4ps</Rate>]
    in the descriptor, when no digit stands just before the phrase, and is
    not "4ps" when one does. *)
Theorem spike_rate_recomputed (m : text) :
  ApigeeTemplates.generate_policy_xml (str "SpikeArrest") m
    = ApigeeTemplates.xml "<?xml version='1.0' encoding='UTF-8' standalone='yes'?>
<SpikeArrest async='false' continueOnError='false' enabled='true' name='SpikeArrest'>
  <DisplayName>Spike Arrest</DisplayName>
  <Rate>" ++ RequestParser.extract_spike_arrest_rate m ++ ApigeeTemplates.xml "</Rate>
  <UseEffectiveCount>true</UseEffectiveCount>
</SpikeArrest>" /\
  (contains (str "spike arrest") m = true ->
   In (str "SpikeArrest") (RequestParser.detect_policies m)) /\
  (forall a b,
     m = a ++ str "4 requests per sec" ++ b ->
     ends_with_digit a = false ->
     re_search requests_per_sec (lower a) = None ->
     RequestParser.extract_spike_arrest_rate m = str "4ps" /\
     ApigeeTemplates.generate_policy_xml (str "SpikeArrest") m
       = ApigeeTemplates.xml "<?xml version='1.0' encoding='UTF-8' standalone='yes'?>
<SpikeArrest async='false' continueOnError='false' enabled='true' name='SpikeArrest'>
  <DisplayName>Spike Arrest</DisplayName>
  <Rate>4ps</Rate>
  <UseEffectiveCount>true</UseEffectiveCount>
</SpikeArrest>") /\
  (forall a b,
     m = a ++ str "4 requests per sec" ++ b ->
     ends_with_digit a = true ->
     re_search requests_per_sec (lower a) = None ->
     RequestParser.extract_spike_arrest_rate m <> str "4ps").
Proof.
  assert (G : forall t, ApigeeTemplates.generate_policy_xml (str "SpikeArrest") t
    = ApigeeTemplates.spike_arrest_xml (RequestParser.extract_spike_arrest_rate t))
    by reflexivity.
  split; [rewrite G; reflexivity | split; [apply spike_arrest_detected | split]].
  - intros a b -> Hend Hnone.
    rewrite G, (requests_per_sec_first a b Hend Hnone).
    split; reflexivity.
  - intros a b -> Hend Hnone. exact (requests_per_sec_longer a b Hend Hnone).
Qed.

Lemma spike_rate_recomputed_witness :
  let m := str "Guard orders-v2 with spike arrest at " ++ str "4 requests per sec"
           ++ str " please" in
  In (str "SpikeArrest") (RequestParser.detect_policies m) /\
  RequestParser.extract_spike_arrest_rate m = str "4ps".
Proof.
  intros m.
  destruct (spike_rate_recomputed m) as (_ & Hd & Hr & _).
  split; [apply Hd; reflexivity|].
  apply (Hr (str "Guard orders-v2 with spike arrest at ") (str " please"));
    reflexivity.
Defined.

(* ------------------------------------------------------------------ *)
(** ** The booking scenario *)

(** C8.  For the booking request, [extract_proxy_details] returns the name
    "booking-api", the base path "/booking" and the target URL
    "https://backend.example.com/api", without the period that ends the
    sentence, and [detect_policies] returns exactly [VerifyAPIKey]. *)
Theorem booking_scenario :
  RequestParser.extract_proxy_details booking_request =
    RequestParser.ProxyDetails (str "booking-api")
      (str "https://backend.example.com/api") (str "/booking") /\
  RequestParser.detect_policies booking_request = [str "VerifyAPIKey"].
Proof. split; vm_compute; reflexivity. Qed.

(* ------------------------------------------------------------------ *)
(** ** Placement of the policies in the flows *)

Section Placement.

Import ApigeeTemplates.

Lemma preflow_not_postflow (p : text) :
  in_list p preflow_request_kinds = true ->
  in_list p postflow_response_kinds = false.
Proof.
  intros H. apply in_list_In in H. simpl in H.
  destruct H as [<-|[<-|[<-|[<-|[<-|[]]]]]]; reflexivity.
Qed.

(** The placement loop, from any state of the three lists. *)
Lemma fold_place (ps : list text) (a b c : list text) :
  fold_left place ps (FlowSteps a b c) =
  FlowSteps
    (a ++ map step (filter (fun p => in_list p preflow_request_kinds) ps))
    b
    (c ++ map step (filter (fun p => in_list p postflow_response_kinds) ps)).
Proof.
  revert a c; induction ps as [|p ps IH]; intros a c; cbn [fold_left filter].
  - now rewrite !app_nil_r.
  - unfold place at 2. cbn [preflow_request_steps preflow_response_steps
                            postflow_response_steps].
    destruct (in_list p preflow_request_kinds) eqn:E1.
    + rewrite (preflow_not_postflow p E1), IH. cbn [map].
      now rewrite <- app_assoc.
    + destruct (in_list p postflow_response_kinds) eqn:E2; rewrite IH.
      * cbn [map]. now rewrite <- app_assoc.
      * reflexivity.
Qed.

Lemma step_injective (p q : text) : step p = step q -> p = q.
Proof.
  unfold step. intros H.
  apply app_inv_head in H. apply app_inv_tail in H. exact H.
Qed.

Lemma In_steps (f : text -> bool) (ps : list text) (p : text) :
  In (step p) (map step (filter f ps)) <-> In p ps /\ f p = true.
Proof.
  rewrite in_map_iff. split.
  - intros (q & E & H). apply step_injective in E. subst q.
    now apply filter_In in H.
  - intros H. exists p. split; [reflexivity | now apply filter_In].
Qed.

End Placement.




(* ------------------------------------------------------------------ *)
(** ** The fault rules and the bundle *)

Section Bundle.

Import ApigeeService.

Lemma ends_with_char_app (c : ascii) (a b : text) :
  b <> [] -> ends_with_char c (a ++ b) = ends_with_char c b.
Proof.
  intros Hb. unfold ends_with_char. rewrite rev_app_distr.
  destruct (rev b) as [|x l] eqn:E; [|reflexivity].
  apply (f_equal (@rev ascii)) in E. rewrite rev_involutive in E. contradiction.
Qed.

Lemma open_path_app (a b : text) : open_path b = true -> open_path (a ++ b) = true.
Proof.
  unfold open_path. destruct b as [|x b]; [discriminate|]. intros H.
  rewrite ends_with_char_app by discriminate.
  destruct (a ++ x :: b) eqn:E; [|exact H]. now destruct a.
Qed.

Lemma path_join2_plain (d x : text) :
  open_path d = true -> plain_component x = true ->
  path_join2 d x = d ++ str "/" ++ x /\ open_path (path_join2 d x) = true.
Proof.
  unfold plain_component. intros Hd Hx. apply andb_true_iff in Hx as [Hs Ho].
  apply negb_true_iff in Hs.
  assert (E : path_join2 d x = d ++ str "/" ++ x).
  { unfold path_join2. rewrite Hs. unfold open_path, ends_with_char in Hd.
    destruct d as [|c d]; [discriminate|].
    destruct (rev (c :: d)) as [|y l] eqn:R.
    { apply (f_equal (@length ascii)) in R. rewrite length_rev in R. discriminate. }
    apply negb_true_iff in Hd. now rewrite Hd. }
  split; [exact E|]. rewrite E, app_assoc. now apply open_path_app.
Qed.

(** [os.path.join] of plain components puts a [/] before each. *)
Lemma path_join_plain (parts : list text) (d : text) :
  open_path d = true -> forallb plain_component parts = true ->
  path_join d parts = d ++ concat (map (fun x => str "/" ++ x) parts).
Proof.
  revert d; induction parts as [|x parts IH]; intros d Hd Hp; cbn [path_join fold_left].
  - simpl. now rewrite app_nil_r.
  - cbn [forallb] in Hp. apply andb_true_iff in Hp as [Hx Hp].
    destruct (path_join2_plain d x Hd Hx) as [E Ho].
    change (fold_left path_join2 parts (path_join2 d x))
      with (path_join (path_join2 d x) parts).
    rewrite (IH _ Ho Hp), E. cbn [map concat]. now rewrite <- !app_assoc.
Qed.

(** The directory [apiproxy] of the bundle is an open path. *)
Lemma apiproxy_dir_open (temp_dir : text) :
  open_path (path_join temp_dir [str "apiproxy"]) = true.
Proof.
  cbn [path_join fold_left]. unfold path_join2.
  change (starts_with (str "/") (str "apiproxy")) with false. cbv iota.
  destruct (rev temp_dir) as [|c l]; [reflexivity|].
  destruct (Ascii.eqb c "/"); [|rewrite app_assoc]; now apply open_path_app.
Qed.

Lemma name_component (m : text) :
  plain_component (RequestParser.name (RequestParser.extract_proxy_details m) ++ str ".xml")
    = true.
Proof.
  destruct (name_chars m) as [Hne Hall].
  destruct (RequestParser.name (RequestParser.extract_proxy_details m)) as [|c r];
    [congruence|].
  unfold plain_component. apply andb_true_iff. split.
  - inversion Hall; subst. apply name_char_not_slash in H1.
    change (str "/") with ["/"%char]. cbn [app starts_with].
    apply Ascii.eqb_neq in H1. rewrite Ascii.eqb_sym, H1. reflexivity.
  - now apply open_path_app.
Qed.

Lemma name_no_slash (m : text) :
  ~ In "/"%char (RequestParser.name (RequestParser.extract_proxy_details m) ++ str ".xml").
Proof.
  destruct (name_chars m) as [_ Hall]. intros H. apply in_app_iff in H as [H|H].
  - apply (proj1 (Forall_forall _ _) Hall) in H.
    now apply name_char_not_slash in H.
  - apply mem_In in H. discriminate.
Qed.

(** No file of the bundle is the descriptor of a fault step. *)
Lemma bundle_without_fault_steps (temp_dir message step_name : text) :
  In step_name fault_step_names ->
  ~ In (policy_path (path_join temp_dir [str "apiproxy"]) step_name)
       (map path (create_proxy_bundle temp_dir (analyze_request message))).
Proof.
  intros Hs.
  pose proof (apiproxy_dir_open temp_dir) as Hd.
  set (d := path_join temp_dir [str "apiproxy"]) in *.
  assert (Et : policy_path d step_name = d ++ str "/policies/" ++ step_name ++ str ".xml").
  { unfold policy_path. rewrite (path_join_plain _ d Hd).
    - cbn [map concat]. now rewrite app_nil_r.
    - simpl in Hs. destruct Hs as [<-|[<-|[]]]; reflexivity. }
  rewrite Et. unfold create_proxy_bundle. fold d.
  rewrite !map_app, !in_app_iff. cbn [map In path].
  cbn [analyze_request proxy_details_of policies original_message custom_logic].
  intros [[H|[H|[H|[]]]] | [H|H]].
  - rewrite (path_join_plain _ d Hd) in H
      by (cbn [forallb]; now rewrite name_component).
    cbn [map concat] in H. rewrite app_nil_r in H. apply app_inv_head in H.
    change (str "/policies/" ++ step_name ++ str ".xml")
      with (str "/" ++ str "policies/" ++ step_name ++ str ".xml") in H.
    apply app_inv_head in H.
    apply (name_no_slash message). rewrite H.
    apply in_or_app. left. apply mem_In. reflexivity.
  - rewrite (path_join_plain _ d Hd) in H by reflexivity.
    apply app_inv_head in H. discriminate.
  - rewrite (path_join_plain _ d Hd) in H by reflexivity.
    apply app_inv_head in H. discriminate.
  - rewrite map_map in H. cbn [path] in H.
    apply in_map_iff in H as (p & H & Hp).
    apply (detect_policies_kinds message) in Hp.
    simpl in Hs, Hp.
    destruct Hs as [<-|[<-|[]]];
      destruct Hp as [<-|[<-|[<-|[<-|[<-|[<-|[]]]]]]];
      unfold policy_path in H;
      rewrite (path_join_plain _ d Hd) in H by reflexivity;
      apply app_inv_head in H; discriminate.
  - destruct (in_list (str "JavaScript") (RequestParser.detect_policies message));
      cbn [required map In path] in H; [|contradiction].
    destruct H as [H|[]].
    rewrite (path_join_plain _ d Hd) in H by reflexivity.
    apply app_inv_head in H. discriminate.
Qed.

Lemma contains_head (p b : text) : contains p (p ++ b) = true.
Proof. apply (contains_app [] p b). Qed.

Lemma contains_skip (a s p : text) :
  contains p s = true -> contains p (a ++ s) = true.
Proof.
  intros H. apply (contains_around p s a []) in H. now rewrite app_nil_r in H.
Qed.

End Bundle.

(* ------------------------------------------------------------------ *)
(** ** The access token in the environment *)

Section Token.

Import ApigeeService.

Lemma getenv_setenv (key value : text) (env : environ) :
  getenv key (setenv key value env) = Some value.
Proof.
  induction env as [|[k v] env IH]; simpl.
  - now rewrite text_eqb_refl.
  - destruct (text_eqb k key) eqn:E; simpl.
    + now rewrite text_eqb_refl.
    + now rewrite E.
Qed.

(** With a token passed and a non-empty token set before (a value of the
    environment has no null character), the variable has its earlier value
    after the call, whatever the outcome. *)
Lemma deploy_restores_set_token (self : service) (post : http_request -> http_outcome)
    (temp_dir : text) (env : environ) (cfg : config)
    (organization : option text) (token original : text) :
  token <> [] -> original <> [] -> mem zero original = false ->
  getenv APIGEE_TOKEN env = Some original ->
  getenv APIGEE_TOKEN
    (fst (deploy_to_apigee self post temp_dir env cfg organization (Some token)))
  = Some original.
Proof.
  intros Ht Ho Hz E. unfold deploy_to_apigee. rewrite E.
  destruct token as [|t0 token]; [congruence|].
  destruct original as [|o0 original]; [congruence|].
  cbn [truthy andb]. unfold putenv.
  destruct (mem zero (t0 :: token)); [exact E|].
  rewrite Hz. cbn [fst]. apply getenv_setenv.
Qed.

(** With a token passed and no token set before, the passed token stays
    in the environment after the call, whatever the outcome. *)
Lemma deploy_leaves_passed_token (self : service) (post : http_request -> http_outcome)
    (temp_dir : text) (env : environ) (cfg : config)
    (organization : option text) (token : text) :
  token <> [] -> mem zero token = false ->
  truthy (getenv APIGEE_TOKEN env) = false ->
  getenv APIGEE_TOKEN
    (fst (deploy_to_apigee self post temp_dir env cfg organization (Some token)))
  = Some token.
Proof.
  intros Ht Hz E. unfold deploy_to_apigee. rewrite E.
  destruct token as [|t0 token]; [congruence|].
  cbn [truthy andb]. unfold putenv. rewrite Hz. cbn [fst].
  apply getenv_setenv.
Qed.

End Token.

(** C4, where the code departs from it.  [deploy_to_apigee] is called with
    the token "secret" while APIGEE_TOKEN is not set: after the call,
    whether the upload succeeded or failed, APIGEE_TOKEN is "secret" and
    not unset as before. *)
Theorem deploy_token_not_restored
    (self : ApigeeService.service) (cfg : ApigeeService.config) (temp_dir : text)
    (post : ApigeeService.http_request -> ApigeeService.http_outcome) :
  ApigeeService.getenv ApigeeService.APIGEE_TOKEN [] = None /\
  ApigeeService.getenv ApigeeService.APIGEE_TOKEN
    (fst (ApigeeService.deploy_to_apigee self post temp_dir [] cfg None
            (Some (str "secret"))))
  = Some (str "secret").
Proof.
  split; [reflexivity|].
  apply deploy_leaves_passed_token; [discriminate | reflexivity | reflexivity].
Qed.

(* ------------------------------------------------------------------ *)
(** ** The fault rules in the rendered descriptor *)

Section Scan.

Variable c0 : ascii.
Variable n : text.

(** [c0 :: n] is found by the search when read from the start of [n]. *)
Hypothesis scan_rest : scan c0 n n n = [].

Lemma scan_app (q a b : text) :
  scan c0 n q (a ++ b) = scan c0 n (scan c0 n q a) b.
Proof. apply fold_left_app. Qed.

Lemma scan_found (s : text) : scan c0 n [] s = [].
Proof. induction s as [|c s IH]; [reflexivity | exact IH]. Qed.

Lemma scan_needle (q : text) : scan c0 n q (c0 :: n) = [].
Proof.
  destruct q as [|x r]; [apply scan_found|].
  unfold scan. cbn [fold_left scan_char]. rewrite Ascii.eqb_refl. exact scan_rest.
Qed.

(** The search finds every occurrence. *)
Lemma contains_scan (s q : text) :
  contains (c0 :: n) s = true -> scan c0 n q s = [].
Proof.
  intros H. destruct (contains_inv _ _ H) as (a & b & ->).
  rewrite !scan_app, scan_needle. apply scan_found.
Qed.

Lemma inert_not_contains (s : text) :
  inert c0 n s -> contains (c0 :: n) s = false.
Proof.
  intros H. destruct (contains (c0 :: n) s) eqn:E; [|reflexivity].
  apply (contains_scan s (c0 :: n)) in E. unfold inert in H.
  rewrite H in E. discriminate.
Qed.

Lemma inert_app (a b : text) : inert c0 n a -> inert c0 n b -> inert c0 n (a ++ b).
Proof. unfold inert. intros Ha Hb. now rewrite scan_app, Ha. Qed.

Lemma inert_nil : inert c0 n [].
Proof. reflexivity. Qed.

Lemma inert_without (s : text) : ~ In c0 s -> inert c0 n s.
Proof.
  induction s as [|c s IH]; intros H; [reflexivity|].
  unfold inert, scan. cbn [fold_left scan_char].
  destruct (Ascii.eqb c c0) eqn:E.
  - apply Ascii.eqb_eq in E. subst. exfalso. apply H. now left.
  - apply IH. intros Hs. apply H. now right.
Qed.

Lemma inert_join (sep : text) (parts : list text) :
  inert c0 n sep -> Forall (inert c0 n) parts -> inert c0 n (join sep parts).
Proof.
  intros Hsep H. induction H as [|p parts Hp H IH]; [reflexivity|].
  destruct parts as [|p' parts]; [exact Hp|].
  change (join sep (p :: p' :: parts)) with (p ++ sep ++ join sep (p' :: parts)).
  auto using inert_app.
Qed.

End Scan.

Section FaultRulesTag.

Import ApigeeTemplates.

Let quiet := inert "<" fault_rules_tag.

Lemma quiet_app (a b : text) : quiet a -> quiet b -> quiet (a ++ b).
Proof. apply inert_app. Qed.

Lemma quiet_steps (f : text -> bool) (policies : list text) :
  (forall p, f p = true -> In p (preflow_request_kinds ++ postflow_response_kinds)) ->
  quiet (format_steps (map step (filter f policies))).
Proof.
  intros Hf.
  assert (E : forall l, format_steps l = join nl l) by (intros [|x l]; reflexivity).
  rewrite E. apply inert_join; [reflexivity|].
  apply Forall_forall. intros t Ht.
  apply in_map_iff in Ht as (p & <- & Hp). apply filter_In in Hp as [_ Hp].
  apply Hf in Hp. simpl in Hp.
  destruct Hp as [<-|[<-|[<-|[<-|[<-|[<-|[]]]]]]]; reflexivity.
Qed.

(** Without VerifyAPIKey, and with a name and a base path that have no
    [<], the rendered descriptor has no [<FaultRules>] tag. *)
Lemma endpoint_without_fault_rules (name base_path message : text) (policies : list text) :
  ~ In "<"%char name -> ~ In "<"%char base_path ->
  ~ In (str "VerifyAPIKey") policies ->
  contains ("<"%char :: fault_rules_tag)
    (generate_proxy_endpoint_xml name base_path policies message) = false.
Proof.
  intros Hn Hb Hv. apply inert_not_contains; [reflexivity|].
  unfold generate_proxy_endpoint_xml, place_all. rewrite fold_place.
  cbn [preflow_request_steps preflow_response_steps postflow_response_steps app].
  unfold fault_rules_xml. apply in_list_false in Hv. rewrite Hv.
  unfold proxy_endpoint_template.
  repeat first
    [ apply quiet_app
    | apply (inert_without "<" fault_rules_tag); assumption
    | apply quiet_steps; intros p Hp; apply in_list_In in Hp; apply in_or_app; tauto
    | reflexivity ].
Qed.

Lemma contains_trans (a b c : text) :
  contains a b = true -> contains b c = true -> contains a c = true.
Proof.
  intros Hab Hbc.
  destruct (contains_inv _ _ Hab) as (u & v & ->).
  destruct (contains_inv _ _ Hbc) as (x & y & ->).
  replace (x ++ (u ++ a ++ v) ++ y) with ((x ++ u) ++ a ++ (v ++ y))
    by now rewrite <- !app_assoc.
  apply contains_app.
Qed.

End FaultRulesTag.

Section AnalysedMessage.

Import RequestParser.

Lemma name_char_not_lt (c : ascii) : name_char c = true -> c <> "<"%char.
Proof. all_chars c. Qed.

Lemma path_char_not_lt (c : ascii) : path_char c = true -> c <> "<"%char.
Proof. all_chars c. Qed.

Lemma base_path_patterns_group (p : pattern) :
  In p base_path_patterns -> group1 p = path_group.
Proof. simpl. intuition (subst; reflexivity). Qed.

Lemma name_without_lt (m : text) :
  ~ In "<"%char (name (extract_proxy_details m)).
Proof.
  destruct (name_chars m) as [_ Hall]. intros H.
  apply (proj1 (Forall_forall _ _) Hall) in H.
  now apply name_char_not_lt in H.
Qed.

Lemma base_path_without_lt (m : text) :
  ~ In "<"%char (base_path (extract_proxy_details m)).
Proof.
  destruct (base_path_cases m) as [-> | (p & g & Hp & M & ->)];
    intros [H|H]; try discriminate.
  - now apply (name_without_lt m).
  - apply strip_incl in H.
    destruct M as (pre & w1 & w3 & post & _ & _ & L & _).
    rewrite (base_path_patterns_group _ Hp) in L.
    apply lang_plus in L as [_ Hall].
    apply (proj1 (Forall_forall _ _) Hall) in H.
    now apply path_char_not_lt in H.
Qed.

End AnalysedMessage.

(** C5.  For every list of policies, the proxy-endpoint descriptor gets the
    fault-rules block, which names the steps AM-InvalidAPIKey and
    AM-GenericError, if and only if VerifyAPIKey is in the list: the slot
    of the template is the block or is empty; with VerifyAPIKey the
    rendered text contains the block; without it, and with a name and a
    base path free of [<] (as the extracted ones are), the rendered text
    has no [<FaultRules>] tag.  And the bundle built from the analysis of
    any message has one policy file for each detected policy and no policy
    file for either of the two steps. *)
Theorem fault_rules_iff_verify_api_key
    (name base_path message temp_dir : text) (policies : list text) :
  (ApigeeTemplates.fault_rules_xml policies = ApigeeTemplates.fault_rules_block <->
   In (str "VerifyAPIKey") policies) /\
  (ApigeeTemplates.fault_rules_xml policies = [] <->
   ~ In (str "VerifyAPIKey") policies) /\
  contains (ApigeeTemplates.xml "<Name>AM-InvalidAPIKey</Name>")
    ApigeeTemplates.fault_rules_block = true /\
  contains (ApigeeTemplates.xml "<Name>AM-GenericError</Name>")
    ApigeeTemplates.fault_rules_block = true /\
  (In (str "VerifyAPIKey") policies ->
   contains ApigeeTemplates.fault_rules_block
     (ApigeeTemplates.generate_proxy_endpoint_xml name base_path policies message)
   = true) /\
  (~ In "<"%char name -> ~ In "<"%char base_path ->
   ~ In (str "VerifyAPIKey") policies ->
   contains (ApigeeTemplates.xml "<FaultRules>")
     (ApigeeTemplates.generate_proxy_endpoint_xml name base_path policies message)
   = false) /\
  (contains (ApigeeTemplates.xml "<FaultRules>")
     (ApigeeTemplates.generate_proxy_endpoint_xml
        (RequestParser.name (RequestParser.extract_proxy_details message))
        (RequestParser.base_path (RequestParser.extract_proxy_details message))
        (RequestParser.detect_policies message) message) = true <->
   In (str "VerifyAPIKey") (RequestParser.detect_policies message)) /\
  (forall p, In p (RequestParser.detect_policies message) ->
     In (ApigeeService.policy_path
           (ApigeeService.path_join temp_dir [str "apiproxy"]) p)
        (map ApigeeService.path
           (ApigeeService.create_proxy_bundle temp_dir
              (ApigeeService.analyze_request message)))) /\
  (forall step_name, In step_name fault_step_names ->
     ~ In (ApigeeService.policy_path
             (ApigeeService.path_join temp_dir [str "apiproxy"]) step_name)
          (map ApigeeService.path
             (ApigeeService.create_proxy_bundle temp_dir
                (ApigeeService.analyze_request message)))).
Proof.
  assert (Hin : forall l, ApigeeTemplates.fault_rules_xml l
                = if in_list (str "VerifyAPIKey") l
                  then ApigeeTemplates.fault_rules_block else []) by reflexivity.
  assert (Hblock : forall nm bp l msg, In (str "VerifyAPIKey") l ->
            contains ApigeeTemplates.fault_rules_block
              (ApigeeTemplates.generate_proxy_endpoint_xml nm bp l msg) = true).
  { intros nm bp l msg H. apply in_list_In in H.
    unfold ApigeeTemplates.generate_proxy_endpoint_xml,
      ApigeeTemplates.proxy_endpoint_template.
    rewrite Hin, H.
    do 3 apply contains_skip. apply contains_head. }
  repeat match goal with |- _ /\ _ => split end.
  - rewrite Hin, <- in_list_In.
    destruct (in_list (str "VerifyAPIKey") policies); split; try reflexivity;
      intros H; discriminate.
  - rewrite Hin, <- in_list_false.
    destruct (in_list (str "VerifyAPIKey") policies); split; try reflexivity;
      intros H; discriminate.
  - reflexivity.
  - reflexivity.
  - apply Hblock.
  - apply endpoint_without_fault_rules.
  - split.
    + intros H.
      destruct (in_list (str "VerifyAPIKey") (RequestParser.detect_policies message))
        eqn:E; [now apply in_list_In|].
      apply in_list_false in E.
      change (ApigeeTemplates.xml "<FaultRules>")
        with ("<"%char :: fault_rules_tag) in H.
      rewrite (endpoint_without_fault_rules _ _ message _
                 (name_without_lt message) (base_path_without_lt message) E) in H.
      discriminate.
    + intros H. apply (contains_trans _ ApigeeTemplates.fault_rules_block).
      * reflexivity.
      * now apply Hblock.
  - intros p Hp. unfold ApigeeService.create_proxy_bundle.
    rewrite !map_app, !in_app_iff. right. left.
    rewrite map_map. apply in_map_iff. exists p. split; [reflexivity | exact Hp].
  - intros step_name. apply bundle_without_fault_steps.
Qed.

(** C5 on a message that asks for an API key, and on a list of policies
    without VerifyAPIKey. *)
Lemma fault_rules_iff_verify_api_key_witness :
  let message := str "create orders proxy with api key check" in
  let policies := [str "CORS"; str "Quota"] in
  contains (ApigeeTemplates.xml "<FaultRules>")
    (ApigeeTemplates.generate_proxy_endpoint_xml (str "orders") (str "/orders")
       policies message) = false /\
  contains ApigeeTemplates.fault_rules_block
    (ApigeeTemplates.generate_proxy_endpoint_xml (str "orders") (str "/orders")
       (RequestParser.detect_policies message) message) = true /\
  ~ In (ApigeeService.policy_path
          (ApigeeService.path_join (str "/tmp/bundle") [str "apiproxy"])
          (str "AM-InvalidAPIKey"))
       (map ApigeeService.path
          (ApigeeService.create_proxy_bundle (str "/tmp/bundle")
             (ApigeeService.analyze_request message))).
Proof.
  intros message policies.
  destruct (fault_rules_iff_verify_api_key (str "orders") (str "/orders") message
              (str "/tmp/bundle") policies) as (_ & _ & _ & _ & _ & Hq & _ & _ & Hn).
  destruct (fault_rules_iff_verify_api_key (str "orders") (str "/orders") message
              (str "/tmp/bundle") (RequestParser.detect_policies message))
    as (_ & _ & _ & _ & Hc & _).
  split; [|split].
  - apply Hq; intros H; apply mem_In in H + apply in_list_In in H; discriminate.
  - apply Hc. apply in_list_In. reflexivity.
  - apply Hn. apply in_list_In. reflexivity.
Defined.

(* ================================================================== *)
(** * Further properties of the parser, the templates and the service *)

(* ------------------------------------------------------------------ *)
(** ** Patterns and the literals they need *)

(** A pattern that begins with a literal matches only in a text that
    contains the literal. *)
Lemma matches_in_literal (p : pattern) (l : string) (r : regex) (s g : text) :
  before p = Seq (lit false l) r -> matches_in p s g -> contains (str l) s = true.
Proof.
  intros Hb (pre & w1 & w3 & post & -> & L1 & _).
  rewrite Hb in L1. destruct L1 as (u & v & -> & Lu & _).
  apply lang_lit in Lu. subst u.
  rewrite <- app_assoc. apply contains_app.
Qed.

(** A group lies inside the text searched, as a contiguous run. *)
Lemma matches_in_contains (p : pattern) (s g : text) :
  matches_in p s g -> contains g s = true.
Proof.
  intros (pre & w1 & w3 & post & -> & _).
  rewrite (app_assoc pre w1). apply contains_app.
Qed.

(* ------------------------------------------------------------------ *)
(** ** The parser: what it returns when nothing matches, and what it
    takes from the message *)

Section ParserResults.

Import RequestParser.

Lemma rate_patterns_group (p : pattern) :
  In p rate_patterns -> group1 p = rate_group.
Proof. simpl. intuition (subst; reflexivity). Qed.

Lemma any_in_false (phrases : list text) (s x : text) :
  any_in phrases s = false -> In x phrases -> contains x s = false.
Proof.
  unfold any_in. intros H Hx.
  destruct (contains x s) eqn:E; [|reflexivity].
  assert (T : existsb (fun p => contains p s) phrases = true)
    by (apply existsb_exists; eauto).
  congruence.
Qed.

Lemma contains_eq_app (a p b s : text) : s = a ++ p ++ b -> contains p s = true.
Proof. intros ->. apply contains_app. Qed.

Lemma strip_contains (chars s : text) : contains (strip chars s) s = true.
Proof.
  unfold strip.
  destruct (lstrip_suffix chars s) as [a Ea].
  destruct (rstrip_prefix chars (lstrip chars s)) as [b Eb].
  apply (contains_trans _ (lstrip chars s)).
  - apply (contains_eq_app [] _ b). exact Eb.
  - apply (contains_eq_app a _ []). now rewrite app_nil_r.
Qed.

Lemma name_char_ident (c : ascii) :
  name_char c = true -> is_upper c = false -> ident_char c = true.
Proof. all_chars c. Qed.

Lemma name_char_not_space (c : ascii) :
  name_char c = true -> Ascii.eqb c " " = false.
Proof. all_chars c. Qed.

(** [replace(' ', '-')] changes nothing in a run of name characters. *)
Lemma replace_char_name (g : text) :
  Forall (fun c => name_char c = true) g -> replace_char " " "-" g = g.
Proof.
  induction 1 as [|c g Hc Hg IH]; [reflexivity|].
  unfold replace_char in *. cbn [map]. rewrite IH.
  now rewrite (name_char_not_space c Hc).
Qed.

(** Where the rate comes from. *)
Lemma rate_cases (m : text) :
  extract_spike_arrest_rate m = str "10ps" \/
  exists g, extract_spike_arrest_rate m = g ++ str "ps" /\ g <> [] /\
            Forall (fun c => is_digit c = true) g /\
            contains g (lower m) = true.
Proof.
  unfold extract_spike_arrest_rate.
  destruct (first_match rate_patterns (lower m)) as [g|] eqn:E; [right | now left].
  apply first_match_sound in E as (p & Hp & M).
  pose proof (matches_in_contains _ _ _ M) as Hc.
  destruct M as (pre & w1 & w3 & post & _ & _ & L & _).
  rewrite (rate_patterns_group _ Hp) in L. apply lang_plus in L as [Hne Hall].
  exists g. auto.
Qed.

Lemma contains_In (g s : text) (x : ascii) :
  contains g s = true -> In x g -> In x s.
Proof.
  intros H Hx. destruct (contains_inv _ _ H) as (a & b & ->).
  apply in_or_app. right. apply in_or_app. now left.
Qed.

End ParserResults.

(** X1.  [extract_spike_arrest_rate] always returns a non-empty run of
    decimal digits followed by "ps": "10", or digits that stand in the
    lower-cased message. *)
Theorem spike_rate_format (m : text) :
  exists digits,
    RequestParser.extract_spike_arrest_rate m = digits ++ str "ps" /\
    digits <> [] /\
    Forall (fun c => is_digit c = true) digits /\
    (digits = str "10" \/ contains digits (lower m) = true).
Proof.
  destruct (rate_cases m) as [E | (g & E & Hne & Hall & Hc)].
  - exists (str "10"). repeat split; try discriminate; [exact E| |now left].
    repeat constructor.
  - exists g. auto.
Qed.

(** X2.  A message without a decimal digit gets the default rate "10ps". *)
Theorem spike_rate_default (m : text) :
  Forall (fun c => is_digit c = false) m ->
  RequestParser.extract_spike_arrest_rate m = str "10ps".
Proof.
  intros Hm. destruct (rate_cases m) as [E | (g & E & Hne & Hall & Hc)]; [exact E|].
  exfalso. destruct g as [|x g]; [congruence|].
  inversion Hall as [|? ? Hx _]; subst.
  assert (Hin : In x (lower m)) by (apply (contains_In _ _ _ Hc); now left).
  apply in_map_iff in Hin as (y & <- & Hy). rewrite is_digit_lower in Hx.
  rewrite (proj1 (Forall_forall _ _) Hm y Hy) in Hx. discriminate.
Qed.

Lemma spike_rate_default_witness :
  RequestParser.extract_spike_arrest_rate (str "protect the backend from a spike")
  = str "10ps".
Proof.
  apply spike_rate_default. vm_compute. repeat constructor.
Defined.

Section ParserDefaults.

Import RequestParser.

Ltac literal_in l M := refine (matches_in_literal _ l _ _ _ _ M); reflexivity.

Lemma name_patterns_literal (p : pattern) (s g : text) :
  In p name_patterns -> matches_in p s g ->
  any_in (map str ["named"; "called"; "proxy"; "create"]) s = true.
Proof.
  intros Hp M. unfold any_in. apply existsb_exists. simpl in Hp.
  destruct Hp as [<-|[<-|[<-|[<-|[<-|[<-|[<-|[]]]]]]]].
  - exists (str "named"). split; [simpl; tauto|].
    literal_in "named" M.
  - exists (str "called"). split; [simpl; tauto|].
    literal_in "called" M.
  - exists (str "proxy"). split; [simpl; tauto|].
    literal_in "proxy" M.
  - exists (str "create"). split; [simpl; tauto|].
    literal_in "create" M.
  - exists (str "create"). split; [simpl; tauto|].
    literal_in "create" M.
  - exists (str "named"). split; [simpl; tauto|].
    apply (contains_trans _ (str "API proxy named")); [reflexivity|].
    literal_in "API proxy named" M.
  - exists (str "named"). split; [simpl; tauto|].
    apply (contains_trans _ (str "Apigee API proxy named")); [reflexivity|].
    literal_in "Apigee API proxy named" M.
Qed.

Lemma base_path_patterns_literal (p : pattern) (s g : text) :
  In p base_path_patterns -> matches_in p s g -> contains (str "path") s = true.
Proof.
  intros Hp M. simpl in Hp.
  destruct Hp as [<-|[<-|[<-|[<-|[]]]]].
  - apply (contains_trans _ (str "base path")); [reflexivity|].
    literal_in "base path" M.
  - apply (contains_trans _ (str "basepath")); [reflexivity|].
    literal_in "basepath" M.
  - literal_in "path" M.
  - apply (contains_trans _ (str "with base path")); [reflexivity|].
    literal_in "with base path" M.
Qed.

(** A text with the scheme has "http" in its lower-cased form. *)
Lemma has_http_scheme_contains (g : text) :
  has_http_scheme g = true -> contains (str "http") (lower g) = true.
Proof.
  unfold has_http_scheme. intros H. apply orb_true_iff in H as [H|H];
    apply starts_with_inv in H as [b E]; rewrite E.
  - apply (contains_app [] (str "http") (str "://" ++ b)).
  - apply (contains_app [] (str "http") (str "s://" ++ b)).
Qed.

Lemma find_target_url_candidate (m u : text) :
  find_target_url url_patterns m = Some u ->
  contains u m = true /\ contains (str "http") (lower m) = true.
Proof.
  intros E. apply find_target_url_sound in E as (p & g & Hp & M & -> & _).
  pose proof (matches_in_contains _ _ _ M) as Hg.
  destruct M as (pre & w1 & w3 & post & _ & _ & L & _).
  destruct (url_patterns_group _ _ Hp L) as [Hs _].
  split.
  - destruct (rstrip_prefix (str ".,;") g) as [b Eb].
    apply (contains_trans _ g); [|exact Hg].
    apply (contains_eq_app [] _ b). exact Eb.
  - apply (contains_trans _ (lower g)).
    + now apply has_http_scheme_contains.
    + now apply contains_lower.
Qed.

End ParserDefaults.

(** X3.  What [extract_proxy_details] returns when nothing matches: a
    message without "http" in any letter case gets the default target URL;
    one that has none of "named", "called", "proxy" and "create" in any
    letter case gets the name "generated-proxy"; one without "path" in any
    letter case gets "/" followed by its name as base path. *)
Theorem extract_proxy_details_defaults (m : text) :
  (contains (str "http") (lower m) = false ->
   RequestParser.target_url (RequestParser.extract_proxy_details m)
     = str "https://mocktarget.apigee.net/json") /\
  (any_in (map str ["named"; "called"; "proxy"; "create"]) (lower m) = false ->
   RequestParser.name (RequestParser.extract_proxy_details m) = str "generated-proxy") /\
  (contains (str "path") (lower m) = false ->
   RequestParser.base_path (RequestParser.extract_proxy_details m)
     = "/"%char :: RequestParser.name (RequestParser.extract_proxy_details m)).
Proof.
  split; [|split].
  - intros H. rewrite target_url_eq.
    destruct (RequestParser.find_target_url RequestParser.url_patterns m) as [u|] eqn:E;
      [|reflexivity].
    apply find_target_url_candidate in E as [_ E]. congruence.
  - intros H. rewrite name_eq.
    destruct (first_match RequestParser.name_patterns (lower m)) as [g|] eqn:E;
      [|reflexivity].
    apply first_match_sound in E as (p & Hp & M).
    rewrite (name_patterns_literal _ _ _ Hp M) in H. discriminate.
  - intros H. rewrite base_path_eq.
    destruct (first_match RequestParser.base_path_patterns (lower m)) as [g|] eqn:E;
      [|reflexivity].
    apply first_match_sound in E as (p & Hp & M).
    rewrite (base_path_patterns_literal _ _ _ Hp M) in H. discriminate.
Qed.

(** The defaults on a message that says nothing. *)
Lemma extract_proxy_details_defaults_witness :
  RequestParser.extract_proxy_details (str "Hello, what can you do?") =
  RequestParser.ProxyDetails (str "generated-proxy")
    (str "https://mocktarget.apigee.net/json") (str "/generated-proxy").
Proof.
  destruct (extract_proxy_details_defaults (str "Hello, what can you do?"))
    as (Hu & Hn & Hb).
  specialize (Hu eq_refl). specialize (Hn eq_refl). specialize (Hb eq_refl).
  rewrite Hn in Hb.
  destruct (RequestParser.extract_proxy_details (str "Hello, what can you do?"))
    as [n u b].
  cbn [RequestParser.name RequestParser.target_url RequestParser.base_path] in *.
  now subst.
Defined.

(** X4.  The proxy name is never empty and is made of lower-case letters,
    digits, "-" and "_" only; it is the captured text as it stands: the
    [replace(' ', '-')] applied to it finds no space to replace. *)
Theorem proxy_name_identifier (m : text) :
  RequestParser.name (RequestParser.extract_proxy_details m) <> [] /\
  Forall (fun c => ident_char c = true)
         (RequestParser.name (RequestParser.extract_proxy_details m)) /\
  (forall g, first_match RequestParser.name_patterns (lower m) = Some g ->
             RequestParser.name (RequestParser.extract_proxy_details m) = g).
Proof.
  destruct (name_chars m) as [Hne Hall]. pose proof (name_not_upper m) as Hup.
  split; [exact Hne | split].
  - apply Forall_forall. intros c Hc.
    apply name_char_ident.
    + exact (proj1 (Forall_forall _ _) Hall c Hc).
    + exact (proj1 (Forall_forall _ _) Hup c Hc).
  - intros g E. rewrite name_eq, E. apply replace_char_name.
    apply first_match_sound in E as (p & Hp & M).
    destruct M as (pre & w1 & w3 & post & _ & _ & L & _).
    rewrite (name_patterns_group _ Hp) in L. now apply lang_plus in L.
Qed.

(** X5.  The extractor takes its results from the message: the target URL
    is the default or stands in the message as it is; the name is the
    default or stands in the lower-cased message; the base path is "/"
    followed by the name or by a run of the lower-cased message. *)
Theorem extracted_values_verbatim (m : text) :
  (RequestParser.target_url (RequestParser.extract_proxy_details m)
     = RequestParser.default_target_url \/
   contains (RequestParser.target_url (RequestParser.extract_proxy_details m)) m = true) /\
  (RequestParser.name (RequestParser.extract_proxy_details m)
     = RequestParser.default_name \/
   contains (RequestParser.name (RequestParser.extract_proxy_details m)) (lower m) = true) /\
  (exists path,
     RequestParser.base_path (RequestParser.extract_proxy_details m) = "/"%char :: path /\
     (path = RequestParser.name (RequestParser.extract_proxy_details m) \/
      contains path (lower m) = true)).
Proof.
  split; [|split].
  - rewrite target_url_eq.
    destruct (RequestParser.find_target_url RequestParser.url_patterns m) as [u|] eqn:E;
      [right | now left].
    now apply find_target_url_candidate in E.
  - destruct (name_cases m) as [E | (p & g & Hp & M & E)]; [now left | right].
    rewrite E, replace_char_name.
    + exact (matches_in_contains _ _ _ M).
    + destruct M as (pre & w1 & w3 & post & _ & _ & L & _).
      rewrite (name_patterns_group _ Hp) in L. now apply lang_plus in L.
  - destruct (base_path_cases m) as [E | (p & g & Hp & M & E)]; rewrite E.
    + eexists. split; [reflexivity | now left].
    + eexists. split; [reflexivity | right].
      apply (contains_trans _ g); [apply strip_contains|].
      exact (matches_in_contains _ _ _ M).
Qed.

(* ------------------------------------------------------------------ *)
(** ** Patterns that never decide *)

Section DeadPatterns.

Import RequestParser.

Lemma covered_None (q p : pattern) (s : text) :
  covered_by q p -> re_search p s = None -> re_search q s = None.
Proof.
  intros C E. apply re_search_None. intros g M.
  destruct (C s g M) as [g' M']. exact (re_search_complete p s g' M' E).
Qed.

(** A pattern is covered by the one that lacks the first part of what
    comes before the group. *)
Lemma covered_before (r0 r1 g a : regex) :
  covered_by (Pattern (Seq r0 r1) g a) (Pattern r1 g a).
Proof.
  intros s x (pre & w1 & w3 & post & -> & (u & v & -> & Lu & Lv) & Lg & La).
  exists x, (pre ++ u), v, w3, post. cbn [before group1 after].
  repeat split; try assumption. now rewrite <- !app_assoc.
Qed.

Lemma covered_trans (p q r : pattern) :
  covered_by p q -> covered_by q r -> covered_by p r.
Proof.
  intros H1 H2 s g M. destruct (H1 s g M) as [g' M']. exact (H2 s g' M').
Qed.

(** A pattern that begins with the literal [l1 ++ l2] is covered by the
    one that begins with [l2]. *)
Lemma covered_literal (l1 l2 : text) (r g a : regex) :
  covered_by (Pattern (Seq (lit_chars false (l1 ++ l2)) r) g a)
             (Pattern (Seq (lit_chars false l2) r) g a).
Proof.
  intros s x (pre & w1 & w3 & post & -> & (u & v & -> & Lu & Lv) & Lg & La).
  apply lang_lit in Lu. subst u.
  exists x, (pre ++ l1), (l2 ++ v), w3, post. cbn [before group1 after].
  repeat split; try assumption.
  - now rewrite <- !app_assoc.
  - exists l2, v. repeat split; [apply lang_lit_self | assumption].
Qed.

(** A pattern that ends with the literal [l1 ++ l2] is covered by the one
    that ends with [l1]. *)
Lemma covered_after (l1 l2 : text) (b g r : regex) :
  covered_by (Pattern b g (Seq r (lit_chars false (l1 ++ l2))))
             (Pattern b g (Seq r (lit_chars false l1))).
Proof.
  intros s x (pre & w1 & w3 & post & -> & Lb & Lg & (u & v & -> & Lu & Lv)).
  apply lang_lit in Lv. subst v.
  exists x, pre, w1, (u ++ l1), (l2 ++ post). cbn [before group1 after].
  repeat split; try assumption.
  - now rewrite <- !app_assoc.
  - exists u, l1. repeat split; [assumption | apply lang_lit_self].
Qed.

Let named : pattern := Pattern (lit false "named" >> plus is_space)%re name_group Eps.

Lemma create_named_covered :
  covered_by
    (Pattern (lit false "create" >> any_lazy >>
              (lit false "proxy" <|> lit false "api") >> any_lazy >>
              lit false "named" >> plus is_space)%re name_group Eps)
    named.
Proof.
  eapply covered_trans; [apply covered_before|].
  eapply covered_trans; [apply covered_before|].
  eapply covered_trans; [apply covered_before|].
  apply covered_before.
Qed.

Lemma api_proxy_named_covered :
  covered_by (Pattern (lit false "API proxy named" >> plus is_space)%re name_group Eps)
             named.
Proof. exact (covered_literal (str "API proxy ") (str "named") _ _ _). Qed.

Lemma apigee_api_proxy_named_covered :
  covered_by
    (Pattern (lit false "Apigee API proxy named" >> plus is_space)%re name_group Eps)
    named.
Proof. exact (covered_literal (str "Apigee API proxy ") (str "named") _ _ _). Qed.

Lemma with_base_path_covered :
  covered_by (Pattern (lit false "with base path" >> plus is_space)%re path_group Eps)
             (Pattern (lit false "base path" >> plus is_space)%re path_group Eps).
Proof. exact (covered_literal (str "with ") (str "base path") _ _ _). Qed.

Lemma per_second_covered :
  covered_by
    (Pattern Eps rate_group
       (star is_space >> lit false "per" >> star is_space >> lit false "second")%re)
    (Pattern Eps rate_group
       (star is_space >> lit false "per" >> star is_space >> lit false "sec")%re).
Proof.
  intros s x (pre & w1 & w3 & post & -> & Lb & Lg &
              (u1 & v1 & -> & L1 & u2 & v2 & -> & L2 & u3 & v3 & -> & L3 & L4)).
  apply lang_lit in L4. subst v3.
  exists x, pre, w1, (u1 ++ u2 ++ u3 ++ str "sec"), (str "ond" ++ post).
  cbn [before group1 after]. repeat split; try assumption.
  - change (str "second") with (str "sec" ++ str "ond").
    now rewrite <- !app_assoc.
  - exists u1, (u2 ++ u3 ++ str "sec"). repeat split; [assumption|].
    exists u2, (u3 ++ str "sec"). repeat split; [assumption|].
    exists u3, (str "sec"). repeat split; [assumption | apply lang_lit_self].
Qed.

End DeadPatterns.

(** X6.  Three of the seven name patterns and the last base-path pattern
    never decide the result of [extract_proxy_details]: wherever
    "create...named X", "API proxy named X", "Apigee API proxy named X" or
    "with base path X" matches, the earlier "named X" or "base path X"
    matches as well and is taken.  On every text, the lists of patterns
    give what the lists without these four give. *)
Theorem name_and_base_path_dead_patterns (s : text) :
  first_match RequestParser.name_patterns s =
    first_match (firstn 3 RequestParser.name_patterns ++
                 firstn 1 (skipn 4 RequestParser.name_patterns)) s /\
  first_match RequestParser.base_path_patterns s =
    first_match (firstn 3 RequestParser.base_path_patterns) s.
Proof.
  split.
  - unfold RequestParser.name_patterns. cbn [firstn skipn app first_match].
    destruct (re_search _ s) eqn:E1; [reflexivity|].
    rewrite (covered_None _ _ s create_named_covered E1).
    rewrite (covered_None _ _ s api_proxy_named_covered E1).
    rewrite (covered_None _ _ s apigee_api_proxy_named_covered E1).
    destruct (re_search _ s); [reflexivity|].
    destruct (re_search _ s); [reflexivity|].
    destruct (re_search _ s); reflexivity.
  - unfold RequestParser.base_path_patterns. cbn [firstn first_match].
    destruct (re_search _ s) eqn:E1; [reflexivity|].
    rewrite (covered_None _ _ s with_base_path_covered E1).
    destruct (re_search _ s); [reflexivity|].
    destruct (re_search _ s); reflexivity.
Qed.

(** X7.  The rate pattern "N per second" never decides the result of
    [extract_spike_arrest_rate]: wherever it matches, the earlier
    "N per sec" matches and is taken.  On every text the six patterns give
    what the other five give. *)
Theorem rate_dead_pattern (s : text) :
  first_match RequestParser.rate_patterns s =
    first_match (firstn 2 RequestParser.rate_patterns ++
                 skipn 3 RequestParser.rate_patterns) s.
Proof.
  unfold RequestParser.rate_patterns. cbn [firstn skipn app first_match].
  destruct (re_search _ s); [reflexivity|].
  destruct (re_search _ s) eqn:E2; [reflexivity|].
  rewrite (covered_None _ _ s per_second_covered E2).
  reflexivity.
Qed.

(* ------------------------------------------------------------------ *)
(** ** Letter case, and phrases that never decide *)

Section CaseAndPhrases.

Import RequestParser.

Lemma lower_char_idem (c : ascii) : lower_char (lower_char c) = lower_char c.
Proof. all_chars c. Qed.

Lemma lower_idem (s : text) : lower (lower s) = lower s.
Proof.
  unfold lower. rewrite map_map. apply map_ext. apply lower_char_idem.
Qed.

Lemma any_in_incl (l1 l2 : list text) (s : text) :
  (forall p, In p l1 -> exists q, In q l2 /\ contains q p = true) ->
  any_in l1 s = true -> any_in l2 s = true.
Proof.
  unfold any_in. rewrite !existsb_exists. intros H (p & Hp & Hc).
  destruct (H p Hp) as (q & Hq & Hqp). exists q. split; [exact Hq|].
  exact (contains_trans _ _ _ Hqp Hc).
Qed.

Lemma any_in_same (l1 l2 : list text) (s : text) :
  (forall p, In p l1 -> exists q, In q l2 /\ contains q p = true) ->
  (forall p, In p l2 -> exists q, In q l1 /\ contains q p = true) ->
  any_in l1 s = any_in l2 s.
Proof.
  intros H12 H21.
  destruct (any_in l1 s) eqn:E1, (any_in l2 s) eqn:E2; try reflexivity.
  - apply (any_in_incl _ _ _ H12) in E1. congruence.
  - apply (any_in_incl _ _ _ H21) in E2. congruence.
Qed.

Lemma security_phrases_short (s : text) :
  any_in security_phrases s =
  any_in (map str ["api key"; "apikey"; "authentication"]) s.
Proof.
  apply any_in_same.
  - intros p H. simpl in H.
    destruct H as [<-|[<-|[<-|[<-|[]]]]].
    + exists (str "api key"). split; [apply in_list_In|]; reflexivity.
    + exists (str "apikey"). split; [apply in_list_In|]; reflexivity.
    + exists (str "authentication"). split; [apply in_list_In|]; reflexivity.
    + exists (str "api key"). split; [apply in_list_In|]; reflexivity.
  - intros p H. simpl in H.
    destruct H as [<-|[<-|[<-|[]]]].
    + exists (str "api key"). split; [apply in_list_In|]; reflexivity.
    + exists (str "apikey"). split; [apply in_list_In|]; reflexivity.
    + exists (str "authentication"). split; [apply in_list_In|]; reflexivity.
Qed.

Lemma spike_phrases_short (s : text) :
  any_in spike_phrases s =
  any_in (map str ["spike"; "burst"; "requests per sec"; "per second"]) s.
Proof.
  apply any_in_same.
  - intros p H. simpl in H.
    destruct H as [<-|[<-|[<-|[<-|[<-|[]]]]]].
    + exists (str "spike"). split; [apply in_list_In|]; reflexivity.
    + exists (str "spike"). split; [apply in_list_In|]; reflexivity.
    + exists (str "burst"). split; [apply in_list_In|]; reflexivity.
    + exists (str "requests per sec"). split; [apply in_list_In|]; reflexivity.
    + exists (str "per second"). split; [apply in_list_In|]; reflexivity.
  - intros p H. simpl in H.
    destruct H as [<-|[<-|[<-|[<-|[]]]]].
    + exists (str "spike"). split; [apply in_list_In|]; reflexivity.
    + exists (str "burst"). split; [apply in_list_In|]; reflexivity.
    + exists (str "requests per sec"). split; [apply in_list_In|]; reflexivity.
    + exists (str "per second"). split; [apply in_list_In|]; reflexivity.
Qed.

Lemma detect_policies_kind (m : text) (phrases : list text) (kind : string) :
  In (str kind, phrases)
     [ (str "VerifyAPIKey", security_phrases);
       (str "Quota", quota_phrases);
       (str "SpikeArrest", spike_phrases);
       (str "JavaScript", javascript_phrases);
       (str "AssignMessage", assign_phrases) ] ->
  In (str kind) (detect_policies m) <-> any_in phrases (lower m) = true.
Proof.
  intros H. rewrite detect_policies_In. simpl in H.
  destruct H as [H|[H|[H|[H|[H|[]]]]]]; injection H as H <-; rewrite <- H;
    (split; [intros [[? E]|[[? E]|[[? E]|[[? E]|[[? E]|[? E]]]]]];
             try discriminate E; assumption
            | intros E; tauto ]).
Qed.

End CaseAndPhrases.

(** X8.  The parser reads the message in lower case only: lower-casing the
    message changes neither the detected policies, nor the name and the
    base path, nor the spike-arrest rate, nor the transformation intent. *)
Theorem parser_ignores_letter_case (m : text) :
  RequestParser.detect_policies (lower m) = RequestParser.detect_policies m /\
  RequestParser.name (RequestParser.extract_proxy_details (lower m))
    = RequestParser.name (RequestParser.extract_proxy_details m) /\
  RequestParser.base_path (RequestParser.extract_proxy_details (lower m))
    = RequestParser.base_path (RequestParser.extract_proxy_details m) /\
  RequestParser.extract_spike_arrest_rate (lower m)
    = RequestParser.extract_spike_arrest_rate m /\
  RequestParser.extract_transformation_intent (lower m)
    = RequestParser.extract_transformation_intent m.
Proof.
  assert (N : RequestParser.name (RequestParser.extract_proxy_details (lower m))
              = RequestParser.name (RequestParser.extract_proxy_details m))
    by (rewrite !name_eq, lower_idem; reflexivity).
  repeat split.
  - unfold RequestParser.detect_policies. now rewrite lower_idem.
  - exact N.
  - rewrite !base_path_eq, lower_idem, N. reflexivity.
  - unfold RequestParser.extract_spike_arrest_rate. now rewrite lower_idem.
  - unfold RequestParser.extract_transformation_intent. now rewrite lower_idem.
Qed.

(** X9.  Two phrases of [detect_policies] never decide: VerifyAPIKey is
    detected exactly when the lower-cased message has "api key", "apikey"
    or "authentication" ("verify api key" has "api key" in it), and
    SpikeArrest exactly when it has "spike", "burst", "requests per sec"
    or "per second" ("spike arrest" has "spike" in it). *)
Theorem detect_policies_redundant_phrases (m : text) :
  (In (str "VerifyAPIKey") (RequestParser.detect_policies m) <->
   any_in (map str ["api key"; "apikey"; "authentication"]) (lower m) = true) /\
  (In (str "SpikeArrest") (RequestParser.detect_policies m) <->
   any_in (map str ["spike"; "burst"; "requests per sec"; "per second"]) (lower m) = true).
Proof.
  split.
  - rewrite <- security_phrases_short.
    apply (detect_policies_kind m _ "VerifyAPIKey"). simpl. tauto.
  - rewrite <- spike_phrases_short.
    apply (detect_policies_kind m _ "SpikeArrest"). simpl. tauto.
Qed.

(* ------------------------------------------------------------------ *)
(** ** The transformation intent *)

Section Intent.

Import RequestParser.

Lemma lstrip_space_suffix (s : text) : exists a, s = a ++ lstrip_space s.
Proof.
  induction s as [|c s [a IH]]; simpl.
  - now exists [].
  - destruct (is_space c).
    + exists (c :: a). simpl. now f_equal.
    + now exists [].
Qed.

Lemma lstrip_space_head (s : text) (c : ascii) (r : text) :
  lstrip_space s = c :: r -> is_space c = false.
Proof.
  induction s as [|x s IH]; simpl; [discriminate|].
  destruct (is_space x) eqn:E; [assumption|].
  intros H. injection H as -> _. assumption.
Qed.

Lemma lstrip_space_fixed (s : text) :
  match s with [] => true | c :: _ => negb (is_space c) end = true ->
  lstrip_space s = s.
Proof.
  destruct s as [|c s]; [reflexivity|]. simpl. intros H.
  apply negb_true_iff in H. now rewrite H.
Qed.

(** [s.strip()] is a part of [s]. *)
Lemma strip_space_parts (s : text) : exists a b, s = a ++ strip_space s ++ b.
Proof.
  unfold strip_space.
  destruct (lstrip_space_suffix s) as [a Ea].
  destruct (lstrip_space_suffix (rev (lstrip_space s))) as [b Eb].
  exists a, (rev b).
  rewrite <- rev_app_distr, <- Eb, rev_involutive. exact Ea.
Qed.

(** [s.strip()] neither begins nor ends with white space. *)
Lemma strip_space_ends (s : text) : space_at_end (strip_space s) = false.
Proof.
  unfold space_at_end. apply orb_false_iff. split.
  - destruct (strip_space s) as [|c r] eqn:E; [reflexivity|].
    unfold strip_space in E.
    destruct (lstrip_space_suffix (rev (lstrip_space s))) as [b Eb].
    apply (f_equal (@rev ascii)) in Eb.
    rewrite rev_involutive, rev_app_distr, E in Eb. simpl in Eb.
    exact (lstrip_space_head _ _ _ Eb).
  - unfold strip_space. rewrite rev_involutive.
    destruct (lstrip_space (rev (lstrip_space s))) as [|c r] eqn:E; [reflexivity|].
    exact (lstrip_space_head _ _ _ E).
Qed.

Lemma transformation_patterns_group (p : pattern) :
  In p transformation_patterns -> group1 p = intent_group.
Proof. simpl. intuition (subst; reflexivity). Qed.

(** Where the intent comes from. *)
Lemma intent_cases (m : text) :
  extract_transformation_intent m = str "custom data transformation" \/
  exists g, extract_transformation_intent m = strip_space g /\
            Forall (fun c => non_period c = true) g /\
            contains g (lower m) = true.
Proof.
  unfold extract_transformation_intent.
  destruct (first_match transformation_patterns (lower m)) as [g|] eqn:E;
    [right | now left].
  apply first_match_sound in E as (p & Hp & M).
  pose proof (matches_in_contains _ _ _ M) as Hc.
  destruct M as (pre & w1 & w3 & post & _ & _ & L & _).
  rewrite (transformation_patterns_group _ Hp) in L. apply lang_plus in L as [_ Hall].
  exists g. auto.
Qed.

End Intent.

Lemma upper_AZ_is_upper (c : ascii) : is_upper c = false -> is_upper_AZ c = false.
Proof.
  unfold is_upper, is_upper_AZ. intros H. now apply orb_false_iff in H as [H _].
Qed.

(** X10.  The transformation intent is the default text or a part of the
    lower-cased message; it has no period and none of the letters A-Z, and
    neither begins nor ends with white space. *)
Theorem transformation_intent_shape (m : text) :
  (RequestParser.extract_transformation_intent m = str "custom data transformation" \/
   contains (RequestParser.extract_transformation_intent m) (lower m) = true) /\
  ~ In "."%char (RequestParser.extract_transformation_intent m) /\
  Forall (fun c => is_upper_AZ c = false) (RequestParser.extract_transformation_intent m) /\
  space_at_end (RequestParser.extract_transformation_intent m) = false.
Proof.
  destruct (intent_cases m) as [-> | (g & -> & Hall & Hc)].
  - split; [now left|]. split; [|split; [|reflexivity]].
    + intros H. apply mem_In in H. discriminate.
    + vm_compute. repeat constructor.
  - destruct (strip_space_parts g) as (a & b & Eg).
    assert (Hg : contains (strip_space g) g = true)
      by (apply (contains_eq_app a _ b); exact Eg).
    pose proof (contains_trans _ _ _ Hg Hc) as Hm.
    split; [now right|]. split; [|split; [|apply strip_space_ends]].
    + intros H. apply (contains_In _ _ _ Hg) in H.
      apply (proj1 (Forall_forall _ _) Hall) in H.
      unfold RequestParser.non_period in H. rewrite Ascii.eqb_refl in H. discriminate.
    + apply Forall_forall. intros c H. apply (contains_In _ _ _ Hm) in H.
      apply upper_AZ_is_upper.
      exact (proj1 (Forall_forall _ _) (lower_not_upper m) c H).
Qed.

(* ------------------------------------------------------------------ *)
(** ** The descriptors *)

Section Descriptors.

Import ApigeeTemplates.

Lemma join_contains (sep : text) (parts : list text) (x : text) :
  In x parts -> contains x (join sep parts) = true.
Proof.
  induction parts as [|p parts IH]; [contradiction|].
  intros [->|H].
  - destruct parts as [|p' parts].
    + apply (contains_eq_app [] x []). simpl. now rewrite app_nil_r.
    + apply (contains_app [] x).
  - destruct parts as [|p' parts]; [contradiction|].
    change (join sep (p :: p' :: parts)) with (p ++ sep ++ join sep (p' :: parts)).
    do 2 apply contains_skip. now apply IH.
Qed.

Lemma dict_get_cases (d : list (text * text)) (key default : text) :
  (In (key, dict_get d key default) d) \/
  (dict_get d key default = default /\ forall v, ~ In (key, v) d).
Proof.
  induction d as [|[k v] d IH]; simpl.
  - right. split; [reflexivity | tauto].
  - destruct (text_eqb k key) eqn:E.
    + apply text_eqb_eq in E. subst. left. now left.
    + destruct IH as [IH | [IH Hn]]; [left; now right | right].
      split; [exact IH|]. intros v' [H|H].
      * injection H as -> _. rewrite text_eqb_refl in E. discriminate.
      * exact (Hn v' H).
Qed.

Lemma contains_head3 (a b c d e : text) :
  contains (a ++ b ++ c) (a ++ b ++ (c ++ d) ++ e) = true.
Proof.
  apply (contains_eq_app [] _ (d ++ e)). simpl. now rewrite <- !app_assoc.
Qed.

(** What group 1 of the URL patterns gives, after [rstrip('.,;')]. *)
Lemma target_url_shape (m : text) :
  RequestParser.target_url (RequestParser.extract_proxy_details m)
    = RequestParser.default_target_url \/
  (Forall (fun c => is_space c = false)
     (RequestParser.target_url (RequestParser.extract_proxy_details m)) /\
   ends_with_any (str ".,;")
     (RequestParser.target_url (RequestParser.extract_proxy_details m)) = false).
Proof.
  rewrite target_url_eq.
  destruct (RequestParser.find_target_url RequestParser.url_patterns m) as [u|] eqn:E;
    [right | now left].
  apply find_target_url_sound in E as (p & g & Hp & M & -> & _).
  destruct M as (pre & w1 & w3 & post & _ & _ & L & _).
  destruct (url_patterns_group _ _ Hp L) as [_ Hns].
  destruct (rstrip_prefix (str ".,;") g) as [b Eg].
  split; [|apply rstrip_ends].
  rewrite Eg in Hns. apply Forall_app in Hns as [Hns _].
  eapply Forall_impl; [|exact Hns].
  intros c Hc. unfold RequestParser.non_space in Hc. now apply negb_true_iff in Hc.
Qed.

Lemma Forall_rev_head (P : ascii -> Prop) (s : text) (c : ascii) (r : text) :
  Forall P s -> rev s = c :: r -> P c.
Proof.
  intros H E. apply Forall_rev in H. rewrite E in H. now inversion H.
Qed.

(** Cleaning leaves a text without white space and without final
    punctuation as it is. *)
Lemma clean_url_fixed (u : text) :
  Forall (fun c => is_space c = false) u ->
  ends_with_any (str ".,;") u = false ->
  rstrip (str ".,; ") (strip_space u) = u.
Proof.
  intros Hs He.
  assert (E1 : strip_space u = u).
  { unfold strip_space. rewrite (lstrip_space_fixed u).
    - rewrite lstrip_space_fixed; [apply rev_involutive|].
      destruct (rev u) as [|c r] eqn:E; [reflexivity|].
      now rewrite (Forall_rev_head _ _ _ _ Hs E).
    - destruct u as [|c r]; [reflexivity|]. inversion Hs; subst.
      now apply negb_true_iff. }
  rewrite E1. unfold rstrip, ends_with_any in *.
  destruct (rev u) as [|c r] eqn:E.
  - apply (f_equal (@rev ascii)) in E. now rewrite rev_involutive in E.
  - cbn [lstrip].
    assert (Hc : mem c (str ".,; ") = false).
    { pose proof (Forall_rev_head _ _ _ _ Hs E) as Hsp. cbv beta in Hsp.
      revert He Hsp. clear. all_chars c. }
    rewrite Hc, <- E. apply rev_involutive.
Qed.

End Descriptors.

(** X11.  Every descriptor of [generate_policy_xml] carries the name of its
    policy in its [name] attribute, under which the steps of the flows
    refer to it: for the five templates, for SpikeArrest, and for a policy
    that has no template. *)
Theorem policy_descriptor_named (policy_name message : text) :
  contains (ApigeeTemplates.xml " name='" ++ policy_name ++ ApigeeTemplates.xml "'")
    (ApigeeTemplates.generate_policy_xml policy_name message) = true.
Proof.
  unfold ApigeeTemplates.generate_policy_xml.
  destruct (text_eqb policy_name (str "SpikeArrest")) eqn:E.
  - apply text_eqb_eq in E. subst.
    unfold ApigeeTemplates.spike_arrest_xml.
    apply (contains_trans _ (ApigeeTemplates.xml "<?xml version='1.0' encoding='UTF-8' standalone='yes'?>
<SpikeArrest async='false' continueOnError='false' enabled='true' name='SpikeArrest'>
  <DisplayName>Spike Arrest</DisplayName>
  <Rate>")); [reflexivity | apply contains_head].
  - destruct (dict_get_cases ApigeeTemplates.templates policy_name
                (ApigeeTemplates.generic_policy_xml policy_name)) as [H | [-> _]].
    + revert H.
      generalize (ApigeeTemplates.dict_get ApigeeTemplates.templates policy_name
                    (ApigeeTemplates.generic_policy_xml policy_name)).
      intros v H. simpl in H.
      destruct H as [H|[H|[H|[H|[H|[]]]]]]; injection H as <- <-; reflexivity.
    + unfold ApigeeTemplates.generic_policy_xml.
      change (ApigeeTemplates.xml "'>
  <DisplayName>")
        with (ApigeeTemplates.xml "'" ++ ApigeeTemplates.xml ">
  <DisplayName>").
      do 2 apply contains_skip. apply contains_head3.
Qed.

(** X12.  The proxy descriptor lists every policy of the list in a
    [<Policy>] element. *)
Theorem proxy_descriptor_lists_policies (name : text) (policies : list text) (p : text) :
  In p policies ->
  contains (ApigeeTemplates.xml "  <Policy>" ++ p ++ ApigeeTemplates.xml "</Policy>")
    (ApigeeTemplates.generate_proxy_xml name policies) = true.
Proof.
  intros H. unfold ApigeeTemplates.generate_proxy_xml.
  do 7 apply contains_skip.
  apply (contains_trans _
    (join ApigeeTemplates.nl
       (map (fun policy => ApigeeTemplates.xml "  <Policy>" ++ policy ++
                           ApigeeTemplates.xml "</Policy>") policies))).
  - apply join_contains. apply in_map_iff. exists p. auto.
  - apply contains_head.
Qed.

Lemma proxy_descriptor_lists_policies_witness :
  contains (ApigeeTemplates.xml "  <Policy>" ++ str "Quota" ++ ApigeeTemplates.xml "</Policy>")
    (ApigeeTemplates.generate_proxy_xml (str "orders") [str "CORS"; str "Quota"]) = true.
Proof.
  apply proxy_descriptor_lists_policies. apply in_list_In. reflexivity.
Defined.

(** X13.  The target descriptor holds the extracted target URL as it is:
    the cleaning of [generate_target_endpoint_xml] finds nothing to remove
    from a URL that [extract_proxy_details] returns. *)
Theorem target_descriptor_verbatim (m : text) :
  ApigeeTemplates.generate_target_endpoint_xml
    (RequestParser.target_url (RequestParser.extract_proxy_details m)) =
  ApigeeTemplates.xml "<?xml version='1.0' encoding='UTF-8' standalone='yes'?>
<TargetEndpoint name='default'>
  <Description>Default target endpoint</Description>
  <PreFlow name='PreFlow'>
    <Request/>
    <Response/>
  </PreFlow>
  <PostFlow name='PostFlow'>
    <Request/>
    <Response/>
  </PostFlow>
  <Flows/>
  <HTTPTargetConnection>
    <URL>" ++ RequestParser.target_url (RequestParser.extract_proxy_details m) ++
  ApigeeTemplates.xml "</URL>
    <Properties/>
  </HTTPTargetConnection>
</TargetEndpoint>".
Proof.
  unfold ApigeeTemplates.generate_target_endpoint_xml.
  destruct (target_url_shape m) as [-> | [Hs He]].
  - reflexivity.
  - now rewrite (clean_url_fixed _ Hs He).
Qed.

(* ------------------------------------------------------------------ *)
(** ** The files of the bundle *)

Section BundleFiles.

Import ApigeeService.

(** The paths of the bundle of an analysed message, below [apiproxy]. *)
Let below (m : text) : list text :=
  [ str "/" ++ RequestParser.name (RequestParser.extract_proxy_details m) ++ str ".xml";
    str "/proxies/default.xml";
    str "/targets/default.xml" ]
  ++ map (fun p => str "/policies/" ++ p ++ str ".xml") (RequestParser.detect_policies m)
  ++ (if in_list (str "JavaScript") (RequestParser.detect_policies m)
      then [str "/resources/jsc/transformation.js"] else []).

Lemma bundle_paths (temp_dir m : text) :
  map path (create_proxy_bundle temp_dir (analyze_request m)) =
  map (app (path_join temp_dir [str "apiproxy"])) (below m).
Proof.
  pose proof (apiproxy_dir_open temp_dir) as Hd.
  unfold create_proxy_bundle, below.
  set (d := path_join temp_dir [str "apiproxy"]) in *.
  cbn [analyze_request proxy_details_of policies original_message custom_logic].
  rewrite !map_app. cbn [map path]. rewrite !map_map. cbn [path].
  f_equal; [|f_equal].
  - rewrite (path_join_plain _ d Hd)
      by (cbn [forallb]; now rewrite name_component).
    rewrite !(path_join_plain _ d Hd) by reflexivity.
    cbn [map concat]. now rewrite !app_nil_r.
  - apply map_ext_in. intros p Hp.
    apply (detect_policies_kinds m) in Hp. simpl in Hp. unfold policy_path.
    destruct Hp as [<-|[<-|[<-|[<-|[<-|[<-|[]]]]]]];
      rewrite (path_join_plain _ d Hd) by reflexivity; reflexivity.
  - destruct (in_list (str "JavaScript") (RequestParser.detect_policies m));
      [|reflexivity].
    cbn [required map path].
    rewrite (path_join_plain _ d Hd) by reflexivity. reflexivity.
Qed.

(** The file of the proxy descriptor is no other file of the bundle: the
    others lie in a directory. *)
Lemma name_file_apart (m x : text) :
  In "/"%char x ->
  str "/" ++ RequestParser.name (RequestParser.extract_proxy_details m) ++ str ".xml"
    <> str "/" ++ x.
Proof.
  intros Hx E. apply app_inv_head in E.
  apply (name_no_slash m). rewrite E. exact Hx.
Qed.

Lemma detect_policies_NoDup (m : text) : NoDup (RequestParser.detect_policies m).
Proof.
  revert m. apply (detect_policies_cases (@NoDup text)).
  intros [] [] [] [] [] []; vm_compute;
    repeat (constructor; [simpl; intuition discriminate|]); constructor.
Qed.

Lemma below_NoDup (m : text) : NoDup (below m).
Proof.
  unfold below. cbn [app]. constructor.
  - intros H. destruct H as [H|[H|H]].
    + symmetry in H. revert H.
      apply (name_file_apart m (str "proxies/default.xml")).
      apply mem_In. reflexivity.
    + symmetry in H. revert H.
      apply (name_file_apart m (str "targets/default.xml")).
      apply mem_In. reflexivity.
    + apply in_app_iff in H as [H|H].
      * apply in_map_iff in H as (p & H & _). symmetry in H. revert H.
        apply (name_file_apart m (str "policies/" ++ p ++ str ".xml")).
        apply in_or_app. left. apply mem_In. reflexivity.
      * destruct (in_list (str "JavaScript") (RequestParser.detect_policies m));
          [|contradiction].
        destruct H as [H|[]]. symmetry in H. revert H.
        apply (name_file_apart m (str "resources/jsc/transformation.js")).
        apply mem_In. reflexivity.
  - generalize (detect_policies_NoDup m).
    revert m. apply (detect_policies_cases
      (fun l => NoDup l -> NoDup (str "/proxies/default.xml" ::
                  str "/targets/default.xml" ::
                  map (fun p => str "/policies/" ++ p ++ str ".xml") l ++
                  (if in_list (str "JavaScript") l
                   then [str "/resources/jsc/transformation.js"] else [])))).
    intros [] [] [] [] [] [] _; vm_compute;
      repeat (constructor; [simpl; intuition discriminate|]); constructor.
Qed.

Lemma map_app_NoDup (d : text) (l : list text) : NoDup l -> NoDup (map (app d) l).
Proof.
  induction 1 as [|x l Hx Hl IH]; cbn [map]; constructor; [|exact IH].
  intros H. apply in_map_iff in H as (y & E & Hy).
  apply app_inv_head in E. now subst.
Qed.

Lemma transformation_file_below (m : text) :
  In (str "/resources/jsc/transformation.js") (below m) ->
  In (str "JavaScript") (RequestParser.detect_policies m).
Proof.
  unfold below. cbn [app]. intros [H|[H|[H|H]]]; try discriminate.
  - exfalso. revert H.
    apply (name_file_apart m (str "resources/jsc/transformation.js")).
    apply mem_In. reflexivity.
  - apply in_app_iff in H as [H|H].
    + exfalso. apply in_map_iff in H as (p & H & Hp).
      apply (detect_policies_kinds m) in Hp. simpl in Hp.
      destruct Hp as [<-|[<-|[<-|[<-|[<-|[<-|[]]]]]]]; discriminate.
    + destruct (in_list (str "JavaScript") (RequestParser.detect_policies m)) eqn:E;
        [now apply in_list_In | contradiction].
Qed.

End BundleFiles.

(** X14.  In the bundle of an analysed message, every step that the proxy
    endpoint places in a flow refers to a detected policy, whose descriptor
    is written under [policies/] with the content [generate_policy_xml]
    gives for it and the message. *)
Theorem flow_steps_have_descriptors (temp_dir m p : text) :
  let steps := ApigeeTemplates.place_all (RequestParser.detect_policies m) in
  In (ApigeeTemplates.step p)
     (ApigeeTemplates.preflow_request_steps steps ++
      ApigeeTemplates.postflow_response_steps steps) ->
  In p (RequestParser.detect_policies m) /\
  In (ApigeeService.FileWrite
        (ApigeeService.policy_path
           (ApigeeService.path_join temp_dir [str "apiproxy"]) p)
        (ApigeeTemplates.generate_policy_xml p m))
     (ApigeeService.create_proxy_bundle temp_dir (ApigeeService.analyze_request m)).
Proof.
  intros steps H.
  assert (Hp : In p (RequestParser.detect_policies m)).
  { unfold steps, ApigeeTemplates.place_all in H. rewrite fold_place in H.
    cbn [ApigeeTemplates.preflow_request_steps
         ApigeeTemplates.postflow_response_steps app] in H.
    apply in_app_iff in H as [H|H]; now apply In_steps in H. }
  split; [exact Hp|].
  unfold ApigeeService.create_proxy_bundle, ApigeeService.analyze_request.
  cbn [ApigeeService.policies ApigeeService.original_message
       ApigeeService.proxy_details_of ApigeeService.custom_logic].
  apply in_or_app. right. apply in_or_app. left.
  apply in_map_iff. exists p. split; [reflexivity | exact Hp].
Qed.

Lemma flow_steps_have_descriptors_witness :
  In (ApigeeService.FileWrite (str "/tmp/b/apiproxy/policies/Quota.xml")
        (ApigeeTemplates.generate_policy_xml (str "Quota") (str "add a quota")))
     (ApigeeService.create_proxy_bundle (str "/tmp/b")
        (ApigeeService.analyze_request (str "add a quota"))).
Proof.
  apply (flow_steps_have_descriptors (str "/tmp/b") (str "add a quota") (str "Quota")).
  apply in_list_In. reflexivity.
Defined.

(** X15.  The bundle of an analysed message writes no file twice: the
    paths of its files are pairwise different. *)
Theorem bundle_paths_distinct (temp_dir m : text) :
  NoDup (map ApigeeService.path
           (ApigeeService.create_proxy_bundle temp_dir
              (ApigeeService.analyze_request m))).
Proof.
  rewrite bundle_paths. apply map_app_NoDup, below_NoDup.
Qed.

(** X16.  The bundle of an analysed message has the script
    [resources/jsc/transformation.js] exactly when JavaScript is among the
    detected policies, and the script is then [generate_javascript_code] of
    the extracted intent. *)
Theorem bundle_script_iff_javascript (temp_dir m : text) :
  (In (ApigeeService.path_join (ApigeeService.path_join temp_dir [str "apiproxy"])
         [str "resources/jsc"; str "transformation.js"])
      (map ApigeeService.path
         (ApigeeService.create_proxy_bundle temp_dir (ApigeeService.analyze_request m)))
   <-> In (str "JavaScript") (RequestParser.detect_policies m)) /\
  (In (str "JavaScript") (RequestParser.detect_policies m) ->
   In (ApigeeService.FileWrite
         (ApigeeService.path_join (ApigeeService.path_join temp_dir [str "apiproxy"])
            [str "resources/jsc"; str "transformation.js"])
         (ApigeeTemplates.generate_javascript_code
            (RequestParser.extract_transformation_intent m)))
      (ApigeeService.create_proxy_bundle temp_dir (ApigeeService.analyze_request m))).
Proof.
  assert (F : In (str "JavaScript") (RequestParser.detect_policies m) ->
    In (ApigeeService.FileWrite
         (ApigeeService.path_join (ApigeeService.path_join temp_dir [str "apiproxy"])
            [str "resources/jsc"; str "transformation.js"])
         (ApigeeTemplates.generate_javascript_code
            (RequestParser.extract_transformation_intent m)))
      (ApigeeService.create_proxy_bundle temp_dir (ApigeeService.analyze_request m))).
  { intros H. apply in_list_In in H.
    unfold ApigeeService.create_proxy_bundle.
    apply in_or_app. right. apply in_or_app. right.
    cbn [ApigeeService.analyze_request ApigeeService.custom_logic].
    rewrite H. cbn [ApigeeService.required ApigeeService.js_code]. now left. }
  split; [split|exact F].
  - rewrite bundle_paths.
    rewrite (path_join_plain _ _ (apiproxy_dir_open temp_dir)) by reflexivity.
    cbn [map concat]. rewrite app_nil_r.
    intros H. apply in_map_iff in H as (x & E & Hx).
    apply app_inv_head in E. subst x. now apply transformation_file_below.
  - intros H. apply F in H.
    apply (in_map ApigeeService.path) in H. exact H.
Qed.

(* ------------------------------------------------------------------ *)
(** ** The environment around a deployment *)

Section Environment.

Import ApigeeService.

Lemma getenv_setenv_other (key value k : text) (env : environ) :
  text_eqb key k = false ->
  getenv k (setenv key value env) = getenv k env.
Proof.
  intros Hk. induction env as [|[k0 v0] env IH]; cbn [setenv getenv].
  - now rewrite Hk.
  - destruct (text_eqb k0 key) eqn:E; cbn [getenv].
    + apply text_eqb_eq in E. subst k0. now rewrite Hk.
    + rewrite IH. reflexivity.
Qed.

Lemma getenv_putenv_other (key value k : text) (env env' : environ) :
  text_eqb key k = false ->
  putenv key value env = Some env' -> getenv k env' = getenv k env.
Proof.
  unfold putenv. intros Hk H. destruct (mem zero value); [discriminate|].
  injection H as <-. now apply getenv_setenv_other.
Qed.

(** The upload reads nothing of the environment but the token. *)
Lemma upload_reads_token (self : service) (post : http_request -> http_outcome)
    (temp_dir : text) (cfg : config) (org : text) (env env' : environ) :
  getenv APIGEE_TOKEN env = getenv APIGEE_TOKEN env' ->
  upload self post temp_dir cfg org env = upload self post temp_dir cfg org env'.
Proof. intros E. unfold upload. now rewrite E. Qed.

End Environment.

(** X17.  [deploy_to_apigee] writes no variable of the environment but
    APIGEE_TOKEN: every other variable has after the call the value it had
    before, whatever the arguments and the outcome. *)
Theorem deploy_keeps_other_variables
    (self : ApigeeService.service)
    (post : ApigeeService.http_request -> ApigeeService.http_outcome)
    (temp_dir : text) (env : ApigeeService.environ) (cfg : ApigeeService.config)
    (organization token : option text) (key : text) :
  key <> ApigeeService.APIGEE_TOKEN ->
  ApigeeService.getenv key
    (fst (ApigeeService.deploy_to_apigee self post temp_dir env cfg organization token))
  = ApigeeService.getenv key env.
Proof.
  intros Hk.
  assert (Hne : text_eqb ApigeeService.APIGEE_TOKEN key = false).
  { destruct (text_eqb ApigeeService.APIGEE_TOKEN key) eqn:E; [|reflexivity].
    apply text_eqb_eq in E. congruence. }
  unfold ApigeeService.deploy_to_apigee.
  destruct (ApigeeService.truthy token) eqn:Ht; cbn [andb].
  - destruct token as [t|]; [|discriminate].
    destruct (ApigeeService.putenv ApigeeService.APIGEE_TOKEN t env) as [env1|] eqn:E1;
      [|reflexivity].
    pose proof (getenv_putenv_other _ _ key _ _ Hne E1) as H1.
    destruct (ApigeeService.truthy
                (ApigeeService.getenv ApigeeService.APIGEE_TOKEN env)); [|exact H1].
    destruct (ApigeeService.getenv ApigeeService.APIGEE_TOKEN env) as [o|]; [|exact H1].
    destruct (ApigeeService.putenv ApigeeService.APIGEE_TOKEN o env1) as [env2|] eqn:E2;
      cbn [fst]; [|exact H1].
    rewrite (getenv_putenv_other _ _ key _ _ Hne E2). exact H1.
  - reflexivity.
Qed.

Lemma deploy_keeps_other_variables_witness :
  ApigeeService.getenv (str "APIGEE_ORG")
    (fst (ApigeeService.deploy_to_apigee
            (ApigeeService.Service (str "https://apigee.googleapis.com/v1")
               (str "my-org") (str "apim-dev"))
            (fun _ => ApigeeService.TransportError) (str "/tmp/b")
            [(str "APIGEE_ORG", str "my-org"); (str "APIGEE_TOKEN", str "old")]
            (ApigeeService.analyze_request (str "create orders proxy"))
            None (Some (str "new"))))
  = Some (str "my-org").
Proof.
  apply (deploy_keeps_other_variables _ _ _
           [(str "APIGEE_ORG", str "my-org"); (str "APIGEE_TOKEN", str "old")]).
  discriminate.
Defined.

(** X18.  When APIGEE_TOKEN held a non-empty value before the call, a call
    with a token leaves the whole environment as it was: every variable,
    APIGEE_TOKEN included, reads as before, whether the upload succeeded
    or failed. *)
Theorem deploy_restores_environment
    (self : ApigeeService.service)
    (post : ApigeeService.http_request -> ApigeeService.http_outcome)
    (temp_dir : text) (env : ApigeeService.environ) (cfg : ApigeeService.config)
    (organization : option text) (token original key : text) :
  token <> [] -> original <> [] -> mem zero original = false ->
  ApigeeService.getenv ApigeeService.APIGEE_TOKEN env = Some original ->
  ApigeeService.getenv key
    (fst (ApigeeService.deploy_to_apigee self post temp_dir env cfg organization
            (Some token)))
  = ApigeeService.getenv key env.
Proof.
  intros Ht Ho Hz E.
  destruct (text_eqb ApigeeService.APIGEE_TOKEN key) eqn:Hk.
  - apply text_eqb_eq in Hk. subst key. rewrite E.
    now apply deploy_restores_set_token.
  - unfold ApigeeService.deploy_to_apigee. rewrite E.
    destruct token as [|t0 token]; [congruence|].
    destruct original as [|o0 original]; [congruence|].
    cbn [ApigeeService.truthy andb]. unfold ApigeeService.putenv.
    destruct (mem zero (t0 :: token)); [reflexivity|].
    rewrite Hz. cbn [fst]. now rewrite !getenv_setenv_other.
Qed.

Lemma deploy_restores_environment_witness :
  ApigeeService.getenv ApigeeService.APIGEE_TOKEN
    (fst (ApigeeService.deploy_to_apigee
            (ApigeeService.Service (str "https://apigee.googleapis.com/v1")
               (str "my-org") (str "apim-dev"))
            (fun _ => ApigeeService.Response 500 (str "boom") false) (str "/tmp/b")
            [(str "APIGEE_TOKEN", str "old")]
            (ApigeeService.analyze_request (str "create orders proxy"))
            None (Some (str "new"))))
  = Some (str "old").
Proof.
  apply (deploy_restores_environment _ _ _ [(str "APIGEE_TOKEN", str "old")] _ _
           (str "new") (str "old") ApigeeService.APIGEE_TOKEN);
    try discriminate; reflexivity.
Defined.

(** X19.  Without a token passed ([None] or the empty string) the call
    leaves the environment as it is; and when the environment has no
    non-empty APIGEE_TOKEN either, the call does not succeed, whatever the
    Apigee API would answer. *)
Theorem deploy_without_token
    (self : ApigeeService.service)
    (post : ApigeeService.http_request -> ApigeeService.http_outcome)
    (temp_dir : text) (env : ApigeeService.environ) (cfg : ApigeeService.config)
    (organization token : option text) :
  ApigeeService.truthy token = false ->
  fst (ApigeeService.deploy_to_apigee self post temp_dir env cfg organization token)
    = env /\
  (ApigeeService.truthy (ApigeeService.getenv ApigeeService.APIGEE_TOKEN env) = false ->
   ApigeeService.success
     (snd (ApigeeService.deploy_to_apigee self post temp_dir env cfg organization token))
     = false).
Proof.
  intros Ht. unfold ApigeeService.deploy_to_apigee. rewrite Ht. cbn [andb fst snd].
  split; [reflexivity|].
  intros He. unfold ApigeeService.upload. now rewrite He.
Qed.

Lemma deploy_without_token_witness :
  ApigeeService.success
    (snd (ApigeeService.deploy_to_apigee
            (ApigeeService.Service (str "https://apigee.googleapis.com/v1")
               (str "my-org") (str "apim-dev"))
            (fun _ => ApigeeService.Response 200 [] false) (str "/tmp/b")
            [(str "APIGEE_TOKEN", [])]
            (ApigeeService.analyze_request (str "create orders proxy"))
            None (Some [])))
  = false.
Proof.
  apply deploy_without_token; reflexivity.
Defined.

(** X20.  A passed token takes the place of the one of the environment:
    with a non-empty token passed, the result of the call is the result in
    an environment that has no variable at all (the values of the
    environment having no null character, as the system guarantees). *)
Theorem deploy_uses_passed_token
    (self : ApigeeService.service)
    (post : ApigeeService.http_request -> ApigeeService.http_outcome)
    (temp_dir : text) (env : ApigeeService.environ) (cfg : ApigeeService.config)
    (organization : option text) (token : text) :
  token <> [] ->
  (forall v, ApigeeService.getenv ApigeeService.APIGEE_TOKEN env = Some v ->
             mem zero v = false) ->
  snd (ApigeeService.deploy_to_apigee self post temp_dir env cfg organization
         (Some token))
  = snd (ApigeeService.deploy_to_apigee self post temp_dir [] cfg organization
           (Some token)).
Proof.
  intros Ht Hz. unfold ApigeeService.deploy_to_apigee.
  destruct token as [|t0 token]; [congruence|].
  cbn [ApigeeService.truthy ApigeeService.getenv andb]. unfold ApigeeService.putenv.
  destruct (mem zero (t0 :: token)); [reflexivity|].
  assert (U : forall e1 e2 org,
            ApigeeService.upload self post temp_dir cfg org
              (ApigeeService.setenv ApigeeService.APIGEE_TOKEN (t0 :: token) e1)
            = ApigeeService.upload self post temp_dir cfg org
              (ApigeeService.setenv ApigeeService.APIGEE_TOKEN (t0 :: token) e2)).
  { intros e1 e2 org. apply upload_reads_token. now rewrite !getenv_setenv. }
  destruct (ApigeeService.getenv ApigeeService.APIGEE_TOKEN env) as [o|] eqn:E.
  - destruct o as [|o0 o]; cbn [ApigeeService.truthy snd]; [apply U|].
    rewrite (Hz _ eq_refl). cbn [snd]. apply U.
  - cbn [ApigeeService.truthy snd]. apply U.
Qed.

Lemma deploy_uses_passed_token_witness :
  snd (ApigeeService.deploy_to_apigee
         (ApigeeService.Service (str "https://apigee.googleapis.com/v1")
            (str "my-org") (str "apim-dev"))
         (fun _ => ApigeeService.Response 200 [] false) (str "/tmp/b")
         [(str "APIGEE_TOKEN", str "old")]
         (ApigeeService.analyze_request (str "create orders proxy"))
         None (Some (str "new")))
  = snd (ApigeeService.deploy_to_apigee
         (ApigeeService.Service (str "https://apigee.googleapis.com/v1")
            (str "my-org") (str "apim-dev"))
         (fun _ => ApigeeService.Response 200 [] false) (str "/tmp/b")
         []
         (ApigeeService.analyze_request (str "create orders proxy"))
         None (Some (str "new"))).
Proof.
  apply deploy_uses_passed_token; [discriminate|].
  intros v H. injection H as <-. reflexivity.
Defined.

(* ------------------------------------------------------------------ *)
(** ** Suggested and detected policies *)

Section Suggestion.

Import RequestParser.

Lemma suggested_In (m p : text) :
  In p (PolicyTools.suggested m) <->
    (any_in PolicyTools.security_words (lower m) = true /\ p = str "VerifyAPIKey") \/
    (any_in PolicyTools.cors_words (lower m) = true /\ p = str "CORS") \/
    (any_in PolicyTools.quota_words (lower m) = true /\ p = str "Quota") \/
    (any_in PolicyTools.spike_words (lower m) = true /\ p = str "SpikeArrest") \/
    (any_in PolicyTools.javascript_words (lower m) = true /\ p = str "JavaScript") \/
    (any_in PolicyTools.assign_words (lower m) = true /\ p = str "AssignMessage").
Proof.
  unfold PolicyTools.suggested. rewrite !In_append_if. simpl. tauto.
Qed.

Lemma suggested_cases (P : list text -> Prop) :
  (forall b1 b2 b3 b4 b5 b6 : bool,
     P (append_if b6 "AssignMessage" (append_if b5 "JavaScript"
        (append_if b4 "SpikeArrest" (append_if b3 "Quota"
        (append_if b2 "CORS" (append_if b1 "VerifyAPIKey" []))))))) ->
  forall m, P (PolicyTools.suggested m).
Proof. intros H m. apply H. Qed.

Ltac covers :=
  let p := fresh "p" in
  let H := fresh "H" in
  intros p H; simpl in H;
  repeat (destruct H as [<-|H];
          [first [ exists (str "api key"); split; [apply in_list_In|]; reflexivity
                 | exists (str "apikey"); split; [apply in_list_In|]; reflexivity
                 | exists (str "auth"); split; [apply in_list_In|]; reflexivity
                 | exists (str "javascript"); split; [apply in_list_In|]; reflexivity
                 | exists (str "transform"); split; [apply in_list_In|]; reflexivity
                 | exists (str "modify"); split; [apply in_list_In|]; reflexivity
                 | exists (str "combine"); split; [apply in_list_In|]; reflexivity
                 | exists (str "js"); split; [apply in_list_In|]; reflexivity ] |]);
  contradiction.

Lemma security_phrases_suggested (s : text) :
  any_in security_phrases s = true -> any_in PolicyTools.security_words s = true.
Proof. apply any_in_incl. covers. Qed.

Lemma javascript_phrases_suggested (s : text) :
  any_in javascript_phrases s = true -> any_in PolicyTools.javascript_words s = true.
Proof. apply any_in_incl. covers. Qed.

Lemma cors_suggested (s : text) :
  contains (str "cors") s = true -> any_in PolicyTools.cors_words s = true.
Proof.
  intros H. unfold any_in. apply existsb_exists.
  exists (str "cors"). split; [apply in_list_In; reflexivity | exact H].
Qed.

End Suggestion.

(** X21.  The list that [suggest_policies] builds has no duplicates (so
    [list(set(...))] can only reorder it) and holds policy kinds of the
    enumeration only; and whenever [detect_policies] finds VerifyAPIKey,
    CORS or JavaScript in a text, [suggest_policies] suggests that policy
    for the same text. *)
Theorem suggested_covers_detected (m : text) :
  NoDup (PolicyTools.suggested m) /\
  incl (PolicyTools.suggested m) policy_kinds /\
  (forall kind,
     In kind (map str ["VerifyAPIKey"; "CORS"; "JavaScript"]) ->
     In kind (RequestParser.detect_policies m) ->
     In kind (PolicyTools.suggested m)).
Proof.
  split; [|split].
  - revert m. apply (suggested_cases (@NoDup text)).
    intros [] [] [] [] [] []; vm_compute;
      repeat (constructor; [simpl; intuition discriminate|]); constructor.
  - revert m. apply (suggested_cases (fun l => incl l policy_kinds)).
    intros [] [] [] [] [] [] p; vm_compute; tauto.
  - intros kind Hk Hd. apply detect_policies_In in Hd. apply suggested_In.
    simpl in Hk. destruct Hk as [<-|[<-|[<-|[]]]];
      destruct Hd as [[H E]|[[H E]|[[H E]|[[H E]|[[H E]|[H E]]]]]];
      try discriminate E.
    + left. split; [now apply security_phrases_suggested | reflexivity].
    + right. left. split; [now apply cors_suggested | reflexivity].
    + do 4 right. left. split; [now apply javascript_phrases_suggested | reflexivity].
Qed.

Lemma suggested_covers_detected_witness :
  In (str "JavaScript") (PolicyTools.suggested (str "add a JS policy for the response")).
Proof.
  destruct (suggested_covers_detected (str "add a JS policy for the response"))
    as (_ & _ & H).
  apply H; apply in_list_In; reflexivity.
Defined.
